(** * gulp-epub-starter-simple: a shallow embedding of [gulpfile.babel.js]

    The gulpfile assembles an EPUB from a source tree: a handful of
    pipeline stages ([copyFiles], [html], [xhtml], [css], [images], [js]),
    a packaging stage ([zipEpub]), a validation task ([validate]), a preview
    server ([serve], [reload]) and the named compositions [dev],
    [buildProof], [buildEpub] and [buildValidate].

    Conventions of the embedding.
    - A path is the list of its [/]-separated segments; a template such as
      [`${a}/${b}`] is the list [a ++ [b]].
    - A glob is the list of its pattern segments, written as in the source:
      ["**"] is the globstar, [*] inside a segment stands for any run of
      characters.
    - The contents of files and the text transforms of the plugins (sass,
      cleanCSS, uglify, ...) are not interpreted: a file records the list of
      content transforms that were applied to it, in order.
    - Tasks that complete through a callback are state transformers on a
      [world] that records console output, completion signals, started
      subprocesses and reload signals. *)

From Stdlib Require Import Ascii String.
From stdpp Require Import base option list strings gmap.

#[local] Set Warnings "-register-all".

(** ** JavaScript values, strict equality and truthiness *)

Module JS.

(** The values the gulpfile compares or tests: primitives and objects.
    An object carries its identity and its string-valued own properties
    (enough for [process.env] and for the browser-sync instance). *)
Inductive value :=
| Undefined
| Null
| Bool (b : bool)
| Str (s : string)
| Obj (ref : nat) (props : gmap string string).

(** [a === b]: no conversion; values of different types are different,
    objects are compared by identity. *)
Definition strict_eq (a b : value) : bool :=
  match a, b with
  | Undefined, Undefined => true
  | Null, Null => true
  | Bool x, Bool y => bool_decide (x = y)
  | Str x, Str y => bool_decide (x = y)
  | Obj r _, Obj r' _ => bool_decide (r = r')
  | _, _ => false
  end.

(** ToBoolean, as used by [if (v)] and [c ? a : b]. *)
Definition truthy (v : value) : bool :=
  match v with
  | Undefined | Null => false
  | Bool b => b
  | Str s => negb (bool_decide (s = ""))
  | Obj _ _ => true
  end.

End JS.

(** ** lodash's [kebabCase], on ASCII input

    [kebabCase] is imported from lodash.  The model follows lodash on ASCII
    text: apostrophes are dropped, the string is cut into words at every
    character that is not a letter or a digit, at a lower-to-upper case
    change, between letters and digits, and before the last capital of a run
    of capitals followed by a lower-case letter; the words are lower-cased
    and joined with [-].  (Ordinals such as [1st], which lodash keeps in one
    word, are cut here.) *)

Module Lodash.

Definition code (c : ascii) : nat := nat_of_ascii c.

Definition is_upper (c : ascii) : bool := (65 <=? code c) && (code c <=? 90).
Definition is_lower (c : ascii) : bool := (97 <=? code c) && (code c <=? 122).
Definition is_digit (c : ascii) : bool := (48 <=? code c) && (code c <=? 57).
Definition is_letter (c : ascii) : bool := is_upper c || is_lower c.
Definition is_word_char (c : ascii) : bool := is_letter c || is_digit c.

Definition lower (c : ascii) : ascii :=
  if is_upper c then ascii_of_nat (code c + 32) else c.

(** Does a new word start at [cur], which follows [prev] and precedes
    [next]? *)
Definition starts_word (prev cur : ascii) (next : option ascii) : bool :=
  (is_lower prev && is_upper cur)
  || (is_letter prev && is_digit cur)
  || (is_digit prev && is_letter cur)
  || (is_upper prev && is_upper cur
      && match next with Some n => is_lower n | None => false end).

Definition flush (cur : list ascii) : list (list ascii) :=
  match cur with [] => [] | _ => [cur] end.

Fixpoint words_from (prev : option ascii) (cur : list ascii)
    (s : list ascii) : list (list ascii) :=
  match s with
  | [] => flush cur
  | c :: s' =>
      if is_word_char c then
        match prev with
        | Some p =>
            if starts_word p c (head s')
            then flush cur ++ words_from (Some c) [c] s'
            else words_from (Some c) (cur ++ [c]) s'
        | None => words_from (Some c) (cur ++ [c]) s'
        end
      else flush cur ++ words_from None [] s'
  end.

Definition apostrophe : ascii := ascii_of_nat 39.

Definition words (s : string) : list (list ascii) :=
  words_from None []
    (filter (fun c => c <> apostrophe) (list_ascii_of_string s)).

Fixpoint join (sep : string) (ws : list string) : string :=
  match ws with
  | [] => ""
  | [w] => w
  | w :: ws' => w +:+ sep +:+ join sep ws'
  end.

Definition kebabCase (s : string) : string :=
  join "-" (map (fun w => string_of_list_ascii (map lower w)) (words s)).

End Lodash.

Import Lodash.

(** ** Configuration *)

Record Config := {
  epubName : string;
  sourceDirectoryName : string;
  buildDirectoryName : string;
  contentDirectoryName : string;
  devServerPort : nat
}.

Definition config : Config := {|
  epubName := "Textbook";
  sourceDirectoryName := "src";
  buildDirectoryName := "build";
  contentDirectoryName := "EPUB";
  devServerPort := 3000
|}.

(** A path: the list of its segments, from the file-system root. *)
Abbreviation fpath := (list string).

(** [path.resolve(dir, name)] for an absolute [dir] and a plain [name]. *)
Definition path_resolve (dir : fpath) (name : string) : fpath := dir ++ [name].

(** [path.relative(from, to)] on normalised absolute paths: drop the common
    prefix, climb out of what is left of [from]. *)
Fixpoint path_relative (from to : fpath) : fpath :=
  match from, to with
  | a :: from', b :: to' =>
      if bool_decide (a = b) then path_relative from' to'
      else replicate (length from) ".." ++ to
  | _, _ => replicate (length from) ".." ++ to
  end.

(** [process.env] is the object holding the environment variables. *)
Definition process_env (vars : gmap string string) : JS.value := JS.Obj 0 vars.

(** ** Globs

    [gulp.src] hands its globs to node-glob.  A pattern segment matches a
    path segment character by character, [*] standing for any run of
    characters.  The globstar ["**"] stands for any number of segments (none
    included: node-glob drops the directory itself for an ignore pattern in
    [dir/**], and every positive glob of this file has its globstar before
    a further segment).  Unless [dot] is set, a name that starts with [.] is
    matched only by a pattern segment that itself starts with [.], and the
    globstar does not descend into such a name. *)

Definition hidden (s : string) : bool :=
  match s with
  | String c _ => bool_decide (c = "."%char)
  | EmptyString => false
  end.

Fixpoint wild_match (p s : string) {struct p} : bool :=
  match p with
  | EmptyString => bool_decide (s = "")
  | String c p' =>
      if bool_decide (c = "*"%char) then
        (fix star (s : string) : bool :=
           wild_match p' s
           || match s with
              | EmptyString => false
              | String _ s' => star s'
              end) s
      else
        match s with
        | EmptyString => false
        | String d s' => bool_decide (c = d) && wild_match p' s'
        end
  end.

Definition seg_match (dot : bool) (p s : string) : bool :=
  if hidden s && negb dot && negb (hidden p) then false else wild_match p s.

Fixpoint glob_match (dot : bool) (pat : list string) (p : fpath) {struct pat} : bool :=
  match pat with
  | [] => bool_decide (p = [])
  | g :: pat' =>
      if bool_decide (g = "**") then
        (fix swallow (p : fpath) : bool :=
           glob_match dot pat' p
           || match p with
              | [] => false
              | s :: p' => (dot || negb (hidden s)) && swallow p'
              end) p
      else
        match p with
        | [] => false
        | s :: p' => seg_match dot g s && glob_match dot pat' p'
        end
  end.

(** The characters that node-glob gives a meaning to. *)
Definition magic (c : ascii) : bool :=
  bool_decide (c ∈ list_ascii_of_string "*?[]{}()!+@\").

(** A segment without glob characters. *)
Definition plain (s : string) : bool :=
  forallb (fun c => negb (magic c)) (list_ascii_of_string s).

(** glob-parent: the directory part of a glob before its first magic
    segment; for a glob without magic, its directory. *)
Fixpoint glob_parent (pat : list string) : fpath :=
  match pat with
  | [] => []
  | [_] => []
  | g :: pat' => if plain g then g :: glob_parent pat' else []
  end.

(** An entry of the array given to [gulp.src]: a glob, or a glob negated
    with a leading [!]. *)
Inductive glob :=
| Pos (pat : list string)
| Neg (pat : list string).

(** The negated globs that follow position [i]: the ones that apply to the
    positive glob at [i]. *)
Fixpoint negatives (gs : list glob) : list (list string) :=
  match gs with
  | [] => []
  | Pos _ :: gs' => negatives gs'
  | Neg n :: gs' => n :: negatives gs'
  end.

(** node-glob matches its [ignore] patterns with [dot] set. *)
Definition ignored (negs : list (list string)) (p : fpath) : bool :=
  existsb (fun n => glob_match true n p) negs.

(** The positive globs of the array, each with the negated globs after it. *)
Fixpoint positives (gs : list glob) : list (list string * list (list string)) :=
  match gs with
  | [] => []
  | Pos g :: gs' => (g, negatives gs') :: positives gs'
  | Neg _ :: gs' => positives gs'
  end.

(** Is the path [p] read by [gulp.src(gs)]? *)
Definition selected (gs : list glob) (p : fpath) : bool :=
  existsb (fun '(g, negs) => glob_match false g p && negb (ignored negs p))
    (positives gs).

(** ** Files, streams and plugins *)

(** The content transforms of the plugins the gulpfile pipes through. *)
Inductive transform :=
| sourcemaps_init
| sourcemaps_write
| sass
| cleanCSS
| postcss
| image
| uglify.

(** File contents, kept symbolic: bytes as found on disk, the result of a
    content transform, or an archive with its entries: a file entry with
    its contents, or a directory entry ([None]). *)
Inductive contents :=
| Source (text : string)
| Apply (t : transform) (c : contents)
| Archive (entries : list (fpath * option contents)).

(** A file system tree: the regular files with their contents.  The
    directories of the tree are the ones that hold a file, at any depth. *)
Abbreviation tree := (list (fpath * contents)).

(** The directories on the way to a path. *)
Fixpoint ancestors (p : fpath) : list fpath :=
  match p with
  | [] => []
  | s :: p' =>
      match p' with
      | [] => []
      | _ :: _ => [s] :: map (cons s) (ancestors p')
      end
  end.

(** Each directory once, in the order in which they are first met. *)
Definition directories (t : tree) : list fpath :=
  reverse (remove_dups (reverse (flat_map (fun pc => ancestors pc.1) t))).

(** A vinyl file travelling through a stream; a directory has no contents
    ([file.isNull()]). *)
Record vinyl := {
  base : fpath;
  vpath : fpath;
  data : option contents
}.

Abbreviation stream := (list vinyl).

(** [file.relative] *)
Definition relative (f : vinyl) : fpath := path_relative (base f) (vpath f).

Definition dirname (p : fpath) : fpath := removelast p.
Definition basename (p : fpath) : string := List.last p "".

(** Cut a file name at its last dot: [(name, extension)], the extension
    with its dot; no dot gives an empty extension. *)
Fixpoint split_ext (s : string) : string * string :=
  match s with
  | EmptyString => ("", "")
  | String c s' =>
      let '(b, e) := split_ext s' in
      if bool_decide (e = "") then
        if bool_decide (c = "."%char) then ("", String c s')
        else (String c b, "")
      else (String c b, e)
  end.

(** [path.extname]: a leading dot does not start an extension. *)
Definition extname (s : string) : string :=
  let '(b, e) := split_ext s in
  if bool_decide (b = "") then "" else e.

(** The file name without its extension [path.extname]. *)
Definition strip_ext (s : string) : string :=
  let '(b, _) := split_ext s in
  if bool_decide (b = "") then s else b.

(** The file name with its extension replaced by [ext]. *)
Definition replace_ext (s ext : string) : string := strip_ext s +:+ ext.

Definition set_ext (ext : string) (p : fpath) : fpath :=
  dirname p ++ [replace_ext (basename p) ext].

(** [s.replace(old, new)] with a string pattern: the first occurrence of
    [old] in [s] is replaced, and [s] is returned when there is none. *)
Fixpoint starts_with (pre s : string) : bool :=
  match pre with
  | EmptyString => true
  | String a pre' =>
      match s with
      | EmptyString => false
      | String b s' => bool_decide (a = b) && starts_with pre' s'
      end
  end.

Fixpoint drop_chars (n : nat) (s : string) : string :=
  match n with
  | O => s
  | S n' => match s with EmptyString => "" | String _ s' => drop_chars n' s' end
  end.

Fixpoint string_replace (old new s : string) : string :=
  if starts_with old s then new +:+ drop_chars (String.length old) s
  else match s with
       | EmptyString => ""
       | String c s' => String c (string_replace old new s')
       end.

Fixpoint contains (old s : string) : bool :=
  starts_with old s
  || match s with
     | EmptyString => false
     | String _ s' => contains old s'
     end.

(** [replace] on a whole path, for a non-empty [old] without separator: an
    occurrence lies within one segment, and the first one is in the first
    segment that has one. *)
Fixpoint path_replace (old new : string) (p : fpath) : fpath :=
  match p with
  | [] => []
  | s :: p' =>
      if contains old s then string_replace old new s :: p'
      else s :: path_replace old new p'
  end.

(** [gulp.src(globs, {base})]: every directory and every file of the tree
    that a positive glob matches and no later negated glob ignores, with
    the glob's parent directory as its base unless the [base] option is
    given.  The directories are listed before the files; the order of the
    glob walk is not modelled.  (Two positive globs matching one path would
    emit it once; no call here has two.) *)
Definition gulp_src (gs : list glob) (base_opt : option fpath) (t : tree) : stream :=
  flat_map (fun '(g, negs) =>
    map (fun d =>
           {| base := default (glob_parent g) base_opt; vpath := d; data := None |})
        (List.filter (fun d => glob_match false g d && negb (ignored negs d))
           (directories t))
    ++ map (fun '(p, c) =>
           {| base := default (glob_parent g) base_opt; vpath := p; data := Some c |})
        (List.filter (fun pc => glob_match false g pc.1 && negb (ignored negs pc.1)) t))
    (positives gs).

(** A plugin that only rewrites contents; a directory passes unchanged. *)
Definition through (tr : transform) (s : stream) : stream :=
  map (fun f => {| base := base f; vpath := vpath f; data := Apply tr <$> data f |}) s.

(** gulp-if with a boolean condition. *)
Definition gulpif (c : bool) (plugin : stream -> stream) : stream -> stream :=
  if c then plugin else id.

(** gulp-sass compiles and renames to [.css]; a directory passes
    unchanged. *)
Definition sass_plugin (s : stream) : stream :=
  map (fun f =>
         match data f with
         | Some c => {| base := base f; vpath := set_ext ".css" (vpath f);
                        data := Some (Apply sass c) |}
         | None => f
         end) s.

(** gulp-ext-replace with one argument:
    [file.path = file.path.replace(path.extname(file.path), ext)], the first
    occurrence of the extension of the file in its whole path.  For a file
    without extension the pattern is empty and [ext] is put in front of the
    path, which then is resolved against the working directory. *)
Definition extensionReplace_file (cwd : fpath) (ext : string) (f : vinyl) : vinyl :=
  let e := extname (basename (vpath f)) in
  {| base := base f;
     vpath := if bool_decide (e = "") then cwd ++ ext :: vpath f
              else path_replace e ext (vpath f);
     data := data f |}.

Definition extensionReplace (cwd : fpath) (ext : string) (s : stream) : stream :=
  map (extensionReplace_file cwd ext) s.

(** gulp-rename with [{dirname}]: the file goes to [base/dirname/]. *)
Definition rename_dirname (d : string) (s : stream) : stream :=
  map (fun f => {| base := base f; vpath := base f ++ [d; basename (vpath f)];
                   data := data f |}) s.

(** gulp-zip: one archive of all that the stream holds, each file and each
    directory under its relative path; nothing is emitted for an empty
    stream. *)
Definition zip (name : string) (s : stream) : stream :=
  match s with
  | [] => []
  | f0 :: _ =>
      [{| base := base f0; vpath := base f0 ++ [name];
          data := Some (Archive (map (fun f => (relative f, data f)) s)) |}]
  end.

(** [gulp.dest(folder)]: the files written, each at its relative path
    under [folder] (kept as it is: a relative path that climbs keeps its
    [..] segments).  The directories of the stream are created; they hold
    no contents and are not listed. *)
Definition gulp_dest (folder : fpath) (s : stream) : tree :=
  omap (fun f => (fun c => (folder ++ relative f, c)) <$> data f) s.

(** ** Callback tasks and their effects

    [validate], [serve] and [reload] receive gulp's [done] callback.  Their
    observable effects are logged in order; a subprocess started with
    [child_process.exec] stays in [running] until the event loop delivers
    its result to the callback that was registered for it. *)

(** The callbacks of the file, by name. *)
Inductive callback :=
| validate_callback.

(** What [exec] passes to its callback: [err] is an Error when the command
    could not be run or exited with a non-zero status, null otherwise. *)
Inductive exec_error :=
| ExitStatus (code : nat)
| SpawnFailure (message : string).

Record exec_result := {
  err : option exec_error;
  stdout : string;
  stderr : string
}.

(** The result of a command that ran and exited with status [code]. *)
Definition exited (code : nat) (out errs : string) : exec_result :=
  {| err := if bool_decide (code = 0) then None else Some (ExitStatus code);
     stdout := out; stderr := errs |}.

Inductive effect :=
| Exec (command : string)
| DoneOk
| DoneErr (e : string)
| ConsoleLog (line : string)
| ChildClosed (command : string)
| BrowserInit (baseDir : fpath) (port : nat) (startPath : string)
| BrowserReload.

Record world := {
  log : list effect;
  running : list (string * callback);
  serving : bool
}.

Definition emit (e : effect) (w : world) : world :=
  {| log := log w ++ [e]; running := running w; serving := serving w |}.

(** [exec(command, callback)] returns at once; the result comes later. *)
Definition exec (command : string) (cb : callback) (w : world) : world :=
  {| log := log w ++ [Exec command];
     running := running w ++ [(command, cb)];
     serving := serving w |}.

Definition console_log (line : string) : world -> world := emit (ConsoleLog line).

(** [done()] *)
Definition done_ok : world -> world := emit DoneOk.

(** The completion signals a task has given so far. *)
Definition is_signal (e : effect) : bool :=
  match e with DoneOk | DoneErr _ => true | _ => false end.

Definition signals (w : world) : list effect := filter is_signal (log w).

(** The words of a shell command line, and the file its output goes to. *)
Fixpoint redirect_target (ws : list string) : option string :=
  match ws with
  | [] => None
  | w :: ws' =>
      if bool_decide (w = ">") then head ws' else redirect_target ws'
  end.

(** The browser-sync module: [create] makes a new instance object. *)
Definition Browser_create : JS.value := JS.Obj 1 ∅.

(** ** Task compositions *)

(** What [gulp.series] and [gulp.parallel] build from tasks given by
    function or by registered name. *)
Inductive task :=
| Leaf (name : string)
| Series (children : list task)
| Parallel (children : list task).

(** The names of the leaf tasks of a composition, left to right. *)
Fixpoint leaves (t : task) : list string :=
  match t with
  | Leaf n => [n]
  | Series ts => flat_map leaves ts
  | Parallel ts => flat_map leaves ts
  end.

(** [gulp.watch(globs, task)] *)
Record watcher := {
  watched : list string;
  on_change : task
}.

(** ** The task graph executor *)

Inductive outcome :=
| Success
| Failure (error : string).

#[global] Instance outcome_eq_dec : EqDecision outcome.
Proof. solve_decision. Defined.

(** A leaf has not been started, is running, or has reported completion. *)
Inductive phase :=
| Idle
| Started
| Finished (o : outcome).

(** A composition under execution: the tree of the task, every leaf with
    its phase. *)
Inductive run :=
| RLeaf (name : string) (ph : phase)
| RSeries (children : list run)
| RParallel (children : list run).

(** Nothing started yet. *)
Fixpoint start (t : task) : run :=
  match t with
  | Leaf n => RLeaf n Idle
  | Series ts => RSeries (map start ts)
  | Parallel ts => RParallel (map start ts)
  end.

(** Modelled from the spec: the completion rule of a [series] composite,
    whose executor is gulp's and not in the source file.  The children
    complete in order; the first failure is the composite's failure, and the
    composite succeeds when all children have succeeded. *)
Fixpoint series_status (l : list (option outcome)) : option outcome :=
  match l with
  | [] => Some Success
  | Some Success :: l' => series_status l'
  | Some (Failure e) :: _ => Some (Failure e)
  | None :: _ => None
  end.

(** Modelled from the spec: the completion rule of a [parallel] composite,
    whose executor is gulp's and not in the source file.  The composite
    completes only when all children have completed; it fails, with the
    error of the first failed child, if one or more children failed. *)
Fixpoint parallel_status (l : list (option outcome)) : option outcome :=
  match l with
  | [] => Some Success
  | None :: _ => None
  | Some o :: l' =>
      match parallel_status l' with
      | None => None
      | Some o' => Some (match o with Success => o' | Failure _ => o end)
      end
  end.

(** The completion signal of a composition, if it has given one. *)
Fixpoint status (r : run) : option outcome :=
  match r with
  | RLeaf _ (Finished o) => Some o
  | RLeaf _ _ => None
  | RSeries cs => series_status (map status cs)
  | RParallel cs => parallel_status (map status cs)
  end.

Definition succeeded (r : run) : bool := bool_decide (status r = Some Success).

(** What happens to a leaf: it is started, or it reports completion. *)
Inductive signal :=
| Begin
| End_ (o : outcome).

Definition leaf_fire (sg : signal) (ph : phase) : option phase :=
  match sg, ph with
  | Begin, Idle => Some Started
  | End_ o, Started => Some (Finished o)
  | _, _ => None
  end.

Section UpdateChild.

Variable guard : run -> bool.
Variable f : run -> option run.

(** Apply [f] to the child at index [i]; every child before it has to pass
    [guard]. *)
Fixpoint update_child (i : nat) (cs : list run) {struct cs} : option (list run) :=
  match cs with
  | [] => None
  | c :: cs' =>
      match i with
      | O => (fun c' => c' :: cs') <$> f c
      | S i' => if guard c then cons c <$> update_child i' cs' else None
      end
  end.

End UpdateChild.

(** Modelled from the spec: one step of the executor behind [gulp.series]
    and [gulp.parallel], which is gulp's and not in the source file.  The
    leaf at position [pos] (the child indices from the root) takes the
    signal.  A child of a [series] can move only when every child before it
    has succeeded; the children of a [parallel] move independently of each
    other, whatever the state of their siblings. *)
Fixpoint fire (sg : signal) (pos : list nat) (r : run) {struct r} : option run :=
  match r with
  | RLeaf n ph =>
      match pos with
      | [] => RLeaf n <$> leaf_fire sg ph
      | _ :: _ => None
      end
  | RSeries cs =>
      match pos with
      | [] => None
      | i :: pos' => RSeries <$> update_child succeeded (fire sg pos') i cs
      end
  | RParallel cs =>
      match pos with
      | [] => None
      | i :: pos' => RParallel <$> update_child (fun _ => true) (fire sg pos') i cs
      end
  end.

(** A schedule: the signals in the order they arrive. *)
Fixpoint run_events (evs : list (signal * list nat)) (r : run) : option run :=
  match evs with
  | [] => Some r
  | (sg, pos) :: evs' =>
      match fire sg pos r with
      | Some r' => run_events evs' r'
      | None => None
      end
  end.

(** The states a [series] over the tasks [ts] can be in: the children that
    have succeeded, then one child in any state, then children that were
    never started. *)
Fixpoint series_inv (ts : list task) (cs : list run) : Prop :=
  match ts, cs with
  | [], [] => True
  | _ :: ts', c :: cs' =>
      (status c = Some Success ∧ series_inv ts' cs') ∨ cs' = map start ts'
  | _, _ => False
  end.

(** ** The gulpfile *)

Section Gulpfile.

(** The directory of the gulpfile, the environment variables of the
    process and its working directory. *)
Variable __dirname : fpath.
Variable vars : gmap string string.
Variable cwd : fpath.

(** [const devMode = process.env === 'development'] *)
Definition devMode : bool :=
  JS.strict_eq (process_env vars) (JS.Str "development").

Definition sourceDirectoryPath : fpath :=
  path_resolve __dirname (sourceDirectoryName config).
Definition buildDirectoryPath : fpath :=
  path_resolve __dirname (buildDirectoryName config).

Definition sourceContentDirectoryPath : fpath :=
  sourceDirectoryPath ++ [contentDirectoryName config].
Definition buildContentDirectoryPath : fpath :=
  buildDirectoryPath
  ++ [kebabCase (epubName config) +:+ (if devMode then ".epub" else "")]
  ++ [contentDirectoryName config].

(** *** Copy files *)

Definition copyFiles_globs : list glob :=
  [ Pos (sourceContentDirectoryPath ++ ["**"; "*"]);
    Neg (sourceContentDirectoryPath ++ ["html"; "**"]);
    Neg (sourceContentDirectoryPath ++ ["scss"; "**"]);
    Neg (sourceContentDirectoryPath ++ ["images"; "**"]);
    Neg (sourceContentDirectoryPath ++ ["js"; "**"]) ].

Definition copyFiles (t : tree) : tree :=
  gulp_dest buildContentDirectoryPath (gulp_src copyFiles_globs None t).

(** *** HTML (dev) and XHTML (build) *)

Definition HTMLSource : list string :=
  sourceContentDirectoryPath ++ ["html"; "**"; "*.html"].

Definition html (t : tree) : tree :=
  gulp_dest (buildContentDirectoryPath ++ ["xhtml"])
    (gulp_src [Pos HTMLSource] None t).

Definition xhtml (t : tree) : tree :=
  gulp_dest (buildContentDirectoryPath ++ ["xhtml"])
    (extensionReplace cwd ".xhtml" (gulp_src [Pos HTMLSource] None t)).

(** *** CSS *)

Definition CSSSource : list string :=
  sourceContentDirectoryPath ++ ["scss"; "**"; "*.scss"].

Definition css_globs : list glob :=
  [ Pos (sourceContentDirectoryPath ++ ["scss"; "styles.scss"]) ].

Definition css_pipeline (s : stream) : stream :=
  rename_dirname "css"
    (through postcss
      (gulpif devMode (through sourcemaps_write)
        (gulpif (negb devMode) (through cleanCSS)
          (sass_plugin
            (gulpif devMode (through sourcemaps_init) s))))).

Definition css (t : tree) : tree :=
  gulp_dest buildContentDirectoryPath
    (css_pipeline (gulp_src css_globs (Some sourceContentDirectoryPath) t)).

(** *** Images *)

Definition imageSource : list string :=
  sourceContentDirectoryPath ++ ["images"; "*"].

Definition images (t : tree) : tree :=
  gulp_dest (buildContentDirectoryPath ++ ["images"])
    (through image (gulp_src [Pos imageSource] None t)).

(** *** JavaScript *)

Definition JSSource : list string :=
  sourceContentDirectoryPath ++ ["js"; "*"].

Definition js_pipeline (s : stream) : stream :=
  gulpif (negb devMode) (through uglify) s.

Definition js (t : tree) : tree :=
  gulp_dest buildContentDirectoryPath
    (js_pipeline (gulp_src [Pos JSSource] None t)).

(** *** Zip as EPUB *)

Definition zipEpub_name : string := kebabCase (epubName config) +:+ ".epub".

Definition zipEpub (t : tree) : tree :=
  gulp_dest cwd
    (zip zipEpub_name (gulp_src [Pos (buildDirectoryPath ++ ["**"; "*"])] None t)).

(** *** The input sets of the content stages *)

Definition content_stages : list (string * list glob) :=
  [ ("copyFiles", copyFiles_globs);
    ("html", [Pos HTMLSource]);
    ("css", css_globs);
    ("images", [Pos imageSource]);
    ("js", [Pos JSSource]) ].

(** The stages whose [gulp.src] reads the file at [p]. *)
Definition matching_stages (p : fpath) : list string :=
  map fst (List.filter (fun st => selected st.2 p) content_stages).

(** *** Validate .epub *)

Definition validate_command : string :=
  "java -jar bin/epubcheck-4.0.2/epubcheck.jar " +:+ epubName config
  +:+ ".epub > " +:+ epubName config +:+ ".epub.errors 2>&1".

(** [function(err, stdout, stderr) { if (err) console.log(stderr);
    console.log(stdout); }] *)
Definition run_callback (cb : callback) (r : exec_result) (w : world) : world :=
  match cb with
  | validate_callback =>
      let w1 := if bool_decide (is_Some (err r)) then console_log (stderr r) w else w in
      console_log (stdout r) w1
  end.

(** The event loop delivers the result of the oldest running subprocess. *)
Definition child_close (r : exec_result) (w : world) : world :=
  match running w with
  | [] => w
  | (command, cb) :: rest =>
      run_callback cb r
        {| log := log w ++ [ChildClosed command]; running := rest;
           serving := serving w |}
  end.

Definition validate (w : world) : world :=
  done_ok (exec validate_command validate_callback w).

(** The file the checker is run on, and the file its output goes to. *)
Definition validate_archive : option string := String.words validate_command !! 3.
Definition validate_errors : option string :=
  redirect_target (String.words validate_command).

(** *** Dev server *)

Definition browser : JS.value := Browser_create.

Definition browser_init (baseDir : fpath) (port : nat) (startPath : string)
    (w : world) : world :=
  {| log := log w ++ [BrowserInit baseDir port startPath];
     running := running w; serving := true |}.

Definition serve (w : world) : world :=
  done_ok
    (browser_init (path_relative __dirname buildContentDirectoryPath)
       (devServerPort config) "/xhtml" w).

Definition reload (w : world) : world :=
  done_ok (if JS.truthy browser then emit BrowserReload w else w).

(** *** Watchers *)

Definition watchHTML : watcher :=
  {| watched := HTMLSource; on_change := Series [Leaf "html"; Leaf "reload"] |}.
Definition watchXHTML : watcher :=
  {| watched := HTMLSource; on_change := Series [Leaf "xhtml"] |}.
Definition watchCSS : watcher :=
  {| watched := CSSSource; on_change := Series [Leaf "css"; Leaf "reload"] |}.
Definition watchImages : watcher :=
  {| watched := imageSource; on_change := Series [Leaf "images"; Leaf "reload"] |}.
Definition watchJS : watcher :=
  {| watched := JSSource; on_change := Series [Leaf "js"; Leaf "reload"] |}.

(** *** The exported tasks, by name *)

Inductive action :=
| Stage (run : tree -> tree)
| Callback (run : world -> world)
| Watch (w : watcher)
| Clean (target : fpath).

Definition registry : list (string * action) :=
  [ ("cleanFiles", Clean (cwd ++ [buildDirectoryName config]));
    ("copyFiles", Stage copyFiles);
    ("html", Stage html);
    ("watchHTML", Watch watchHTML);
    ("xhtml", Stage xhtml);
    ("watchXHTML", Watch watchXHTML);
    ("css", Stage css);
    ("watchCSS", Watch watchCSS);
    ("images", Stage images);
    ("watchImages", Watch watchImages);
    ("js", Stage js);
    ("watchJS", Watch watchJS);
    ("zipEpub", Stage zipEpub);
    ("validate", Callback validate);
    ("serve", Callback serve);
    ("reload", Callback reload) ].

Definition lookup_task (name : string) : option action :=
  snd <$> List.find (fun e => bool_decide (e.1 = name)) registry.

(** *** Series *)

Definition dev : task :=
  Series [ Leaf "cleanFiles"; Leaf "copyFiles"; Leaf "html"; Leaf "images";
           Leaf "css"; Leaf "js"; Leaf "serve";
           Parallel [Leaf "watchHTML"; Leaf "watchCSS"] ].

Definition buildProof : task :=
  Series [ Leaf "cleanFiles"; Leaf "copyFiles"; Leaf "xhtml"; Leaf "images";
           Leaf "css"; Leaf "js";
           Parallel [Leaf "watchXHTML"; Leaf "watchCSS"] ].

Definition buildEpub : task :=
  Series [ Leaf "cleanFiles"; Leaf "copyFiles"; Leaf "xhtml"; Leaf "images";
           Leaf "css"; Leaf "js";
           Series [Leaf "zipEpub"] ].

Definition buildValidate : task :=
  Series [ buildEpub; Series [Leaf "validate"] ].

(** *** Clean files *)

(** [del(config.buildDirectoryName)]: the name is resolved against the
    working directory, and the directory is removed with all that is below
    it.  The result is the file system without those files. *)
Definition cleanFiles (t : tree) : tree :=
  List.filter
    (fun pc => negb (bool_decide ((cwd ++ [buildDirectoryName config]) `prefix_of` pc.1)))
    t.

(** A name that globs match without the [dot] option. *)
Definition visible (s : string) : Prop := hidden s = false.

(** The directories that copyFiles leaves to the other stages. *)
Definition owned_dirs : list string := ["html"; "scss"; "images"; "js"].

(** The directory below the source content directory that a path is in. *)
Definition in_dir (d : string) (p : fpath) : Prop :=
  ∃ rest, p = sourceContentDirectoryPath ++ d :: rest.

(** * Properties *)

(** ** The mode flag *)

(** [process.env] is an object, so comparing it with a string by [===] is
    false whatever the environment holds. *)
Lemma devMode_false : devMode = false.
Proof. reflexivity. Qed.

Lemma css_pipeline_eq (s : stream) :
  css_pipeline s
  = rename_dirname "css" (through postcss (through cleanCSS (sass_plugin s))).
Proof. reflexivity. Qed.

Lemma js_pipeline_eq (s : stream) : js_pipeline s = through uglify s.
Proof. reflexivity. Qed.

(** ** Globs *)

Lemma wild_match_star (p s : string) :
  wild_match (String "*" p) s
  = wild_match p s
    || match s with
       | EmptyString => false
       | String _ s' => wild_match (String "*" p) s'
       end.
Proof. destruct s; reflexivity. Qed.

Lemma plain_cons (c : ascii) (g : string) :
  plain (String c g) = true → c ≠ "*"%char ∧ plain g = true.
Proof.
  unfold plain. cbn [list_ascii_of_string forallb].
  rewrite andb_true_iff, negb_true_iff. intros [Hc Hg]. split; [|done].
  intros ->. by vm_compute in Hc.
Qed.

(** A segment without [*] matches itself and nothing else. *)
Lemma wild_match_plain (g s : string) :
  plain g = true → wild_match g s = true ↔ g = s.
Proof.
  revert s. induction g as [|c g IH]; intros s Hp.
  - simpl. rewrite bool_decide_eq_true. split; congruence.
  - apply plain_cons in Hp as [Hc Hg]. simpl.
    rewrite bool_decide_false by done.
    destruct s as [|d s]; [split; discriminate|].
    rewrite andb_true_iff, bool_decide_eq_true, (IH s Hg).
    split; [intros [-> ->]; reflexivity | intros [= -> ->]; done].
Qed.

Lemma seg_match_plain (dot : bool) (g s : string) :
  plain g = true → seg_match dot g s = bool_decide (s = g).
Proof.
  intros Hp. apply eq_true_iff_eq.
  rewrite bool_decide_eq_true. unfold seg_match.
  destruct (hidden s && negb dot && negb (hidden g)) eqn:Hh.
  - split; [discriminate|]. intros ->.
    destruct (hidden g), dot; discriminate.
  - rewrite (wild_match_plain g s Hp). split; congruence.
Qed.

Lemma plain_not_globstar (g : string) : plain g = true → g ≠ "**".
Proof. intros Hp ->. discriminate. Qed.

Lemma glob_match_globstar (dot : bool) (pat : list string) (p : fpath) :
  glob_match dot ("**" :: pat) p
  = glob_match dot pat p
    || match p with
       | [] => false
       | s :: p' => (dot || negb (hidden s)) && glob_match dot ("**" :: pat) p'
       end.
Proof. destruct p; reflexivity. Qed.

Lemma glob_match_plain_cons (dot : bool) (g : string) (pat : list string) (p : fpath) :
  plain g = true →
  glob_match dot (g :: pat) p
  = match p with
    | [] => false
    | s :: p' => bool_decide (s = g) && glob_match dot pat p'
    end.
Proof.
  intros Hp. simpl. rewrite bool_decide_false by by apply plain_not_globstar.
  destruct p as [|s p']; [done|]. by rewrite seg_match_plain.
Qed.

(** A glob that starts with a plain directory matches the paths below that
    directory whose remainder matches the rest of the glob. *)
Lemma glob_match_under (dot : bool) (root pat : list string) (p : fpath) :
  Forall (fun g => plain g = true) root →
  glob_match dot (root ++ pat) p = true
  ↔ ∃ rel, p = root ++ rel ∧ glob_match dot pat rel = true.
Proof.
  intros Hroot. revert p. induction Hroot as [|g root Hg Hroot IH]; intros p.
  - simpl. split; [eauto | by intros (rel & -> & ?)].
  - change ((g :: root) ++ pat) with (g :: (root ++ pat)).
    rewrite glob_match_plain_cons by done.
    destruct p as [|s p'].
    + split; [discriminate | by intros (rel & ? & ?)].
    + rewrite andb_true_iff, bool_decide_eq_true, IH. split.
      * intros (-> & rel & -> & ?). eauto.
      * intros (rel & [= -> ->] & ?). eauto.
Qed.

(** With [dot] set, a final globstar swallows every remainder. *)
Lemma glob_match_dot_globstar (p : fpath) : glob_match true ["**"] p = true.
Proof.
  induction p as [|s p IH]; [reflexivity|].
  rewrite glob_match_globstar. simpl glob_match at 1.
  rewrite IH. by rewrite orb_true_r.
Qed.

Lemma glob_match_under_dir (dot : bool) (root : list string) (d : string)
    (pat : list string) (p : fpath) :
  Forall (fun g => plain g = true) root → plain d = true →
  glob_match dot (root ++ d :: pat) p = true
  ↔ ∃ rest, p = root ++ d :: rest ∧ glob_match dot pat rest = true.
Proof.
  intros Hroot Hd. rewrite glob_match_under by done. split.
  - intros (rel & -> & Hm). rewrite glob_match_plain_cons in Hm by done.
    destruct rel as [|s rest]; [discriminate|].
    apply andb_true_iff in Hm as [->%bool_decide_eq_true Hm]. eauto.
  - intros (rest & -> & Hm). eexists; split; [done|].
    rewrite glob_match_plain_cons by done. by rewrite bool_decide_true.
Qed.

Lemma selected_single (g : list string) (p : fpath) :
  selected [Pos g] p = glob_match false g p.
Proof. unfold selected. simpl. by rewrite andb_true_r, orb_false_r. Qed.

(** ** The input sets of the stages *)

Lemma plain_sourceContentDirectoryPath :
  Forall (fun g => plain g = true) __dirname →
  Forall (fun g => plain g = true) sourceContentDirectoryPath.
Proof.
  intros H. unfold sourceContentDirectoryPath, sourceDirectoryPath, path_resolve.
  rewrite !Forall_app. repeat split; [done | |]; by repeat constructor.
Qed.

Lemma plain_buildDirectoryPath :
  Forall (fun g => plain g = true) __dirname →
  Forall (fun g => plain g = true) buildDirectoryPath.
Proof.
  intros H. unfold buildDirectoryPath, path_resolve.
  rewrite Forall_app. split; [done|]. by repeat constructor.
Qed.

Lemma in_dir_unique (d d' : string) (p : fpath) : in_dir d p → in_dir d' p → d = d'.
Proof.
  intros [r ->] [r' H]. apply app_inv_head in H. congruence.
Qed.

Lemma html_in_dir (p : fpath) :
  Forall (fun g => plain g = true) __dirname →
  selected [Pos HTMLSource] p = true → in_dir "html" p.
Proof.
  intros H. rewrite selected_single. unfold HTMLSource.
  rewrite glob_match_under_dir by (done || by apply plain_sourceContentDirectoryPath).
  intros (rest & -> & _). by exists rest.
Qed.

Lemma css_in_dir (p : fpath) :
  Forall (fun g => plain g = true) __dirname →
  selected css_globs p = true → in_dir "scss" p.
Proof.
  intros H. unfold css_globs. rewrite selected_single.
  rewrite glob_match_under_dir by (done || by apply plain_sourceContentDirectoryPath).
  intros (rest & -> & _). by exists rest.
Qed.

Lemma images_in_dir (p : fpath) :
  Forall (fun g => plain g = true) __dirname →
  selected [Pos imageSource] p = true → in_dir "images" p.
Proof.
  intros H. rewrite selected_single. unfold imageSource.
  rewrite glob_match_under_dir by (done || by apply plain_sourceContentDirectoryPath).
  intros (rest & -> & _). by exists rest.
Qed.

Lemma js_in_dir (p : fpath) :
  Forall (fun g => plain g = true) __dirname →
  selected [Pos JSSource] p = true → in_dir "js" p.
Proof.
  intros H. rewrite selected_single. unfold JSSource.
  rewrite glob_match_under_dir by (done || by apply plain_sourceContentDirectoryPath).
  intros (rest & -> & _). by exists rest.
Qed.

Lemma ignored_dir (d : string) (negs : list (list string)) (p : fpath) :
  Forall (fun g => plain g = true) __dirname → plain d = true →
  (sourceContentDirectoryPath ++ [d; "**"]) ∈ negs →
  in_dir d p → ignored negs p = true.
Proof.
  intros H Hd Hin [rest ->]. unfold ignored. apply existsb_exists.
  exists (sourceContentDirectoryPath ++ [d; "**"]). split.
  - by apply list_elem_of_In.
  - apply glob_match_under_dir; [by apply plain_sourceContentDirectoryPath | done |].
    eexists; split; [done|]. apply glob_match_dot_globstar.
Qed.

(** copyFiles reads nothing of the four directories it leaves to the other
    stages. *)
Lemma copyFiles_not_in_dir (d : string) (p : fpath) :
  Forall (fun g => plain g = true) __dirname →
  d ∈ ["html"; "scss"; "images"; "js"] →
  selected copyFiles_globs p = true → ¬ in_dir d p.
Proof.
  intros H Hd Hsel Hin. unfold selected, copyFiles_globs in Hsel.
  cbn [positives negatives existsb] in Hsel.
  rewrite orb_false_r in Hsel. apply andb_true_iff in Hsel as [_ Hsel].
  apply negb_true_iff in Hsel.
  rewrite (ignored_dir d) in Hsel; [discriminate | done | | | done].
  - set_unfold in Hd. destruct Hd as [->|[->|[->|[->|[]]]]]; reflexivity.
  - set_unfold in Hd. set_unfold.
    destruct Hd as [->|[->|[->|[->|[]]]]]; auto.
Qed.

Lemma wild_match_any (s : string) : wild_match "*" s = true.
Proof.
  induction s as [|c s IH]; [reflexivity|].
  rewrite wild_match_star, IH. by rewrite orb_true_r.
Qed.

Lemma seg_match_any (s : string) : seg_match false "*" s = negb (hidden s).
Proof.
  unfold seg_match. rewrite wild_match_any.
  by destruct (hidden s).
Qed.

(** [**/*] matches the non-empty paths without hidden segments. *)
Lemma glob_match_everything (rel : fpath) :
  glob_match false ["**"; "*"] rel = true
  ↔ rel ≠ [] ∧ Forall (fun s => hidden s = false) rel.
Proof.
  induction rel as [|s rel IH].
  - split; [discriminate | by intros [? _]].
  - rewrite glob_match_globstar, orb_true_iff, andb_true_iff, IH.
    assert (glob_match false ["*"] (s :: rel) = negb (hidden s) && bool_decide (rel = []))
      as -> by (simpl; by rewrite seg_match_any).
    rewrite andb_true_iff, bool_decide_eq_true, Forall_cons. simpl.
    rewrite negb_true_iff. split.
    + intros [[Hs ->] | [Hs [_ Hrel]]]; (split; [done|]); split; done.
    + intros [_ [Hs Hrel]]. destruct rel as [|s' rel']; [left | right]; done.
Qed.

Lemma wild_match_suffix (suffix s : string) :
  plain suffix = true →
  wild_match (String "*" suffix) s = true → ∃ stem, s = stem +:+ suffix.
Proof.
  intros Hp. induction s as [|c s IH]; rewrite wild_match_star, orb_true_iff.
  - intros [H|H]; [|discriminate].
    apply wild_match_plain in H as <-; [by exists "" | done].
  - intros [H|H].
    + apply wild_match_plain in H as <-; [by exists "" | done].
    + destruct (IH H) as [stem ->]. by exists (String c stem).
Qed.

Lemma glob_match_last (dot : bool) (g s : string) (rest : fpath) :
  g ≠ "**" →
  glob_match dot [g] (s :: rest) = seg_match dot g s && bool_decide (rest = []).
Proof. intros Hg. cbn [glob_match]. by rewrite bool_decide_false. Qed.

Lemma seg_match_visible (g s : string) :
  hidden g = false → seg_match false g s = true →
  hidden s = false ∧ wild_match g s = true.
Proof.
  unfold seg_match. intros ->. by destruct (hidden s).
Qed.

(** The paths below a directory that [**/*.html] matches. *)
Lemma glob_match_html_files (rest : fpath) :
  glob_match false ["**"; "*.html"] rest = true →
  ∃ rel stem, rest = rel ++ [stem +:+ ".html"] ∧ stem ≠ "".
Proof.
  induction rest as [|s rest IH]; [discriminate|].
  rewrite glob_match_globstar, orb_true_iff. intros [H|H].
  - rewrite glob_match_last in H by done.
    apply andb_true_iff in H as [Hs ->%bool_decide_eq_true].
    apply seg_match_visible in Hs as [Hh Hs]; [|done].
    apply wild_match_suffix in Hs as [stem ->]; [|done].
    exists [], stem. split; [done|]. by intros ->.
  - apply andb_true_iff in H as [_ H].
    destruct (IH H) as (rel & stem & -> & Hne). by exists (s :: rel), stem.
Qed.

(** ** Paths *)

Lemma path_relative_under (b rel : fpath) : path_relative b (b ++ rel) = rel.
Proof.
  induction b as [|a b IH]; [reflexivity|].
  simpl. by rewrite bool_decide_true.
Qed.

Lemma split_ext_suffix (stem suffix : string) :
  suffix ≠ "" → split_ext suffix = ("", suffix) →
  split_ext (stem +:+ suffix) = (stem, suffix).
Proof.
  intros Hne Hs. induction stem as [|c stem IH]; [done|].
  simpl. rewrite IH. by rewrite bool_decide_false.
Qed.

Lemma replace_ext_html (stem : string) :
  stem ≠ "" → replace_ext (stem +:+ ".html") ".xhtml" = stem +:+ ".xhtml".
Proof.
  intros Hne. unfold replace_ext, strip_ext.
  rewrite (split_ext_suffix stem ".html") by done.
  by rewrite bool_decide_false.
Qed.

Lemma glob_parent_cons (a x : string) (l : list string) :
  glob_parent (a :: x :: l) = if plain a then a :: glob_parent (x :: l) else [].
Proof. reflexivity. Qed.

Lemma glob_parent_magic (root rest : list string) (g : string) :
  Forall (fun g => plain g = true) root → plain g = false →
  glob_parent (root ++ g :: rest) = root.
Proof.
  intros Hroot Hg. induction Hroot as [|a root Ha Hroot IH].
  - simpl. destruct rest; [done|]. by rewrite Hg.
  - change ((a :: root) ++ g :: rest) with (a :: (root ++ g :: rest)).
    destruct (root ++ g :: rest) as [|x l] eqn:E.
    { by destruct root. }
    by rewrite glob_parent_cons, Ha, IH.
Qed.

Lemma not_in_dir_head (d : string) (rel : fpath) :
  (∀ d', head rel = Some d' → d' ∉ ["html"; "scss"; "images"; "js"]) →
  d ∈ ["html"; "scss"; "images"; "js"] →
  ¬ in_dir d (sourceContentDirectoryPath ++ rel).
Proof.
  intros Hhead Hd [rest Heq]. apply app_inv_head in Heq as ->.
  by apply (Hhead d).
Qed.

(** copyFiles reads every visible file outside the four directories. *)
Lemma copyFiles_reads_the_rest (rel : fpath) :
  Forall (fun g => plain g = true) __dirname →
  rel ≠ [] → Forall (fun s => hidden s = false) rel →
  (∀ d, head rel = Some d → d ∉ ["html"; "scss"; "images"; "js"]) →
  selected copyFiles_globs (sourceContentDirectoryPath ++ rel) = true.
Proof.
  intros H Hne Hvis Hhead.
  pose proof (plain_sourceContentDirectoryPath H) as Hplain.
  unfold selected, copyFiles_globs. cbn [positives negatives existsb].
  rewrite orb_false_r. apply andb_true_iff. split.
  - apply glob_match_under; [done|]. exists rel. split; [done|].
    by apply glob_match_everything.
  - apply negb_true_iff, not_true_is_false. unfold ignored.
    rewrite existsb_exists. intros (n & Hn & Hm).
    assert (∃ d, d ∈ ["html"; "scss"; "images"; "js"]
                 ∧ n = sourceContentDirectoryPath ++ [d; "**"]) as (d & Hd & ->).
    { simpl in Hn. destruct Hn as [<-|[<-|[<-|[<-|[]]]]];
        eexists; (split; [|reflexivity]); set_solver. }
    apply glob_match_under_dir in Hm as (rest & Heq & _); [|done|].
    + by apply (not_in_dir_head d rel Hhead Hd); exists rest.
    + set_unfold in Hd. destruct Hd as [->|[->|[->|[->|[]]]]]; reflexivity.
Qed.

(** ** Streams *)

Lemma elem_of_map {A B : Type} (f : A → B) (l : list A) (x : A) :
  x ∈ l → f x ∈ map f l.
Proof. rewrite !list_elem_of_In. apply in_map. Qed.

Lemma NoDup_map_in {A B : Type} (f : A → B) (l : list A) :
  (∀ x y, x ∈ l → y ∈ l → f x = f y → x = y) → NoDup l → NoDup (map f l).
Proof.
  intros Hinj Hl. induction Hl as [|x l Hx Hl IH]; [constructor|].
  cbn [map]. constructor.
  - rewrite list_elem_of_In, in_map_iff. intros (y & Heq & Hy%list_elem_of_In).
    apply Hx. rewrite (Hinj x y); [done | by left | by right | done].
  - apply IH. intros y z Hy Hz. apply Hinj; by right.
Qed.

Lemma NoDup_List_filter {A : Type} (P : A → bool) (l : list A) :
  NoDup l → NoDup (List.filter P l).
Proof.
  intros Hl. induction Hl as [|x l Hx Hl IH]; [constructor|].
  cbn [List.filter]. destruct (P x); [|done].
  constructor; [|done]. rewrite list_elem_of_In, filter_In. intros [Hin _].
  apply Hx. by apply list_elem_of_In.
Qed.

Lemma gulp_dest_app (folder : fpath) (s1 s2 : stream) :
  gulp_dest folder (s1 ++ s2) = gulp_dest folder s1 ++ gulp_dest folder s2.
Proof. apply omap_app. Qed.

(** Directories give no written file. *)
Lemma gulp_dest_directories {A : Type} (folder : fpath) (g : A → vinyl) (l : list A) :
  (∀ x, data (g x) = None) → gulp_dest folder (map g l) = [].
Proof.
  intros Hg. induction l as [|x l IH]; [done|].
  cbn [map]. unfold gulp_dest in *. cbn [omap list_omap]. by rewrite Hg, IH.
Qed.

Lemma gulp_dest_files {A : Type} (folder : fpath) (g : A → vinyl) (k : A → contents)
    (l : list A) :
  (∀ x, data (g x) = Some (k x)) →
  gulp_dest folder (map g l) = map (fun x => (folder ++ relative (g x), k x)) l.
Proof.
  intros Hg. induction l as [|x l IH]; [done|].
  cbn [map]. unfold gulp_dest in *. cbn [omap list_omap]. by rewrite Hg, IH.
Qed.

(** The files that a stage with one positive glob writes: the plugins, as
    one function [pf] on a file, act on the contents by [k]. *)
Lemma stage_files (gs : list glob) (bo : option fpath) (g : list string)
    (negs : list (list string)) (folder : fpath) (pf : vinyl → vinyl)
    (k : contents → contents) (t : tree) :
  positives gs = [(g, negs)] →
  (∀ v, data (pf v) = k <$> data v) →
  gulp_dest folder (map pf (gulp_src gs bo t))
  = map (fun pc =>
           (folder ++ relative (pf {| base := default (glob_parent g) bo;
                                      vpath := pc.1; data := Some pc.2 |}),
            k pc.2))
      (List.filter (fun pc => glob_match false g pc.1 && negb (ignored negs pc.1)) t).
Proof.
  intros Hgs Hpf. unfold gulp_src. rewrite Hgs. cbn [flat_map].
  rewrite app_nil_r, map_app, gulp_dest_app, !map_map.
  rewrite gulp_dest_directories by (intros d; by rewrite Hpf).
  rewrite (gulp_dest_files _ _ (fun pc => k pc.2)).
  - cbn [app]. apply map_ext. by intros [p c].
  - intros [p c]. by rewrite Hpf.
Qed.

Lemma ignored_nil (p : fpath) : ignored [] p = false.
Proof. reflexivity. Qed.

Lemma glob_parent_HTMLSource :
  Forall (fun g => plain g = true) __dirname →
  glob_parent HTMLSource = sourceContentDirectoryPath ++ ["html"].
Proof.
  intros H. unfold HTMLSource.
  change ["html"; "**"; "*.html"] with (["html"] ++ "**" :: ["*.html"]).
  rewrite app_assoc. apply glob_parent_magic; [|done].
  apply Forall_app. split; [by apply plain_sourceContentDirectoryPath|].
  by repeat constructor.
Qed.

Lemma set_ext_last (ext : string) (dir : fpath) (name : string) :
  set_ext ext (dir ++ [name]) = dir ++ [replace_ext name ext].
Proof.
  unfold set_ext, dirname, basename. by rewrite removelast_last, last_last.
Qed.

Lemma filter_all {A : Type} (f : A → bool) (l : list A) :
  Forall (fun x => f x = true) l → List.filter f l = l.
Proof.
  induction 1 as [|x l Hx Hl IH]; [done|]. simpl. by rewrite Hx, IH.
Qed.

(** ** Validation *)

Lemma run_callback_log (cb : callback) (r : exec_result) (w : world) :
  log (run_callback cb r w)
  = log w ++ (if bool_decide (is_Some (err r)) then [ConsoleLog (stderr r)] else [])
          ++ [ConsoleLog (stdout r)].
Proof.
  destruct cb. unfold run_callback, console_log, emit.
  case_bool_decide; simpl; by rewrite <- ?app_assoc.
Qed.

Lemma run_callback_signals (cb : callback) (r : exec_result) (w : world) :
  signals (run_callback cb r w) = signals w.
Proof.
  unfold signals. rewrite run_callback_log, !filter_app.
  case_bool_decide; simpl; by rewrite ?app_nil_r.
Qed.

Lemma child_close_signals (r : exec_result) (w : world) :
  signals (child_close r w) = signals w.
Proof.
  unfold child_close. destruct (running w) as [|[command cb] rest]; [done|].
  rewrite run_callback_signals. unfold signals. simpl.
  by rewrite filter_app, app_nil_r.
Qed.

Lemma validate_signals (w : world) : signals (validate w) = signals w ++ [DoneOk].
Proof.
  unfold validate, done_ok, emit, exec, signals. simpl.
  by rewrite !filter_app, app_nil_r.
Qed.

(** C3 (the code departs from the claim): the packaging stage names its
    archive by kebab-casing the title, [textbook.epub], but the validation
    task runs the checker on the title as configured, [Textbook.epub], and
    sends the output to [Textbook.epub.errors]: not the archive that was
    packaged, nor a log named after it. *)
Theorem C3_validate_names_another_archive :
  zipEpub_name = "textbook.epub"
  ∧ validate_archive = Some "Textbook.epub"
  ∧ validate_errors = Some "Textbook.epub.errors"
  ∧ validate_archive ≠ Some zipEpub_name
  ∧ validate_errors ≠ Some (zipEpub_name +:+ ".errors").
Proof. repeat split; (reflexivity || (vm_compute; discriminate)). Qed.

(** C8: whatever status the checker exits with, the only completion signal
    of the validate task is [done()], a success; the exit of the checker
    adds console output (the error output first when the status is not
    zero) and no signal.  The command sends the output of the checker to
    the error log. *)
Theorem C8_validate_succeeds_for_every_exit_status
    (code : nat) (out errs : string) (lg : list effect) (sv : bool) :
  let w := {| log := lg; running := []; serving := sv |} in
  let w' := child_close (exited code out errs) (validate w) in
  signals w' = signals w ++ [DoneOk]
  ∧ log w' = lg ++ [Exec validate_command; DoneOk; ChildClosed validate_command]
                ++ (if bool_decide (code = 0) then [] else [ConsoleLog errs])
                ++ [ConsoleLog out]
  ∧ running w' = []
  ∧ redirect_target (String.words validate_command) = Some "Textbook.epub.errors".
Proof.
  intros w w'. subst w w'. split; [|split; [|split; [|reflexivity]]].
  - by rewrite child_close_signals, validate_signals.
  - unfold child_close, validate, done_ok, emit, exec; cbn [running log serving app].
    rewrite run_callback_log; cbn [log exited err stdout stderr].
    rewrite <- !app_assoc. do 3 f_equal.
    by destruct code.
  - unfold child_close, validate, done_ok, emit, exec; cbn [running log serving app].
    by destruct code.
Qed.

(** C9: validate calls [done()] right after [exec] has started the checker,
    while the subprocess is still running; when the checker cannot even be
    spawned, the error reaches only the callback, which logs to the console
    after the task has reported success, and no failure is ever signalled. *)
Theorem C9_validate_done_before_checker_finishes
    (msg out errs : string) (lg : list effect) (sv : bool) :
  let w := {| log := lg; running := []; serving := sv |} in
  let failed := {| err := Some (SpawnFailure msg); stdout := out; stderr := errs |} in
  validate w
  = {| log := lg ++ [Exec validate_command; DoneOk];
       running := [(validate_command, validate_callback)];
       serving := sv |}
  ∧ log (child_close failed (validate w))
    = lg ++ [Exec validate_command; DoneOk; ChildClosed validate_command;
             ConsoleLog errs; ConsoleLog out]
  ∧ signals (child_close failed (validate w)) = signals w ++ [DoneOk].
Proof.
  intros w failed. subst w failed. split; [|split].
  - unfold validate, done_ok, emit, exec. simpl. by rewrite <- app_assoc.
  - unfold child_close, validate, done_ok, emit, exec; cbn [running log serving app].
    rewrite run_callback_log; cbn [log err stdout stderr].
    rewrite bool_decide_true by eauto.
    by rewrite <- !app_assoc.
  - by rewrite child_close_signals, validate_signals.
Qed.

(** C10: the browser-sync instance is an object created when the module is
    loaded, so the test [if (browser)] in reload always passes: reload
    emits a reload signal in every world, served or not.  buildProof never
    runs serve, and its watchCSS watcher still runs reload after css. *)
Theorem C10_reload_guard_always_passes (w : world) :
  JS.truthy browser = true
  ∧ reload w = done_ok (emit BrowserReload w)
  ∧ log (reload w) = log w ++ [BrowserReload; DoneOk]
  ∧ ("serve" ∉ leaves buildProof)
  ∧ ("watchCSS" ∈ leaves buildProof)
  ∧ lookup_task "watchCSS" = Some (Watch watchCSS)
  ∧ on_change watchCSS = Series [Leaf "css"; Leaf "reload"]
  ∧ lookup_task "reload" = Some (Callback reload).
Proof.
  repeat split; try reflexivity.
  - unfold reload, done_ok, emit. simpl. by rewrite <- app_assoc.
  - apply (bool_decide_unpack _). by vm_compute.
  - apply (bool_decide_unpack _). by vm_compute.
Qed.

(** * Further properties of the stages *)

(** ** What each stage reads and writes *)

Lemma elem_of_map_filter {A B : Type} (f : A → B) (P : A → bool) (l : list A) (y : B) :
  y ∈ map f (List.filter P l) ↔ ∃ x, y = f x ∧ x ∈ l ∧ P x = true.
Proof.
  rewrite list_elem_of_In, in_map_iff. split.
  - intros (x & <- & Hx). apply filter_In in Hx as [Hx HP].
    exists x. by rewrite list_elem_of_In.
  - intros (x & -> & Hx & HP). exists x. split; [done|].
    apply filter_In. by rewrite <- list_elem_of_In.
Qed.

Lemma selected_copyFiles_iff (p : fpath) :
  Forall (fun g => plain g = true) __dirname →
  selected copyFiles_globs p = true
  ↔ ∃ rel, p = sourceContentDirectoryPath ++ rel ∧ rel ≠ []
           ∧ Forall visible rel
           ∧ ∀ d, head rel = Some d → d ∉ owned_dirs.
Proof.
  intros H. split.
  - intros Hsel. pose proof Hsel as Hsel'.
    unfold selected, copyFiles_globs in Hsel'.
    cbn [positives negatives existsb] in Hsel'.
    rewrite orb_false_r in Hsel'. apply andb_true_iff in Hsel' as [Hm _].
    apply glob_match_under in Hm as (rel & -> & Hm);
      [|by apply plain_sourceContentDirectoryPath].
    apply glob_match_everything in Hm as [Hne Hvis].
    exists rel. repeat split; [done..|].
    intros d Hd Hin. destruct rel as [|d' rest]; [done|]. injection Hd as ->.
    apply (copyFiles_not_in_dir d _ H Hin Hsel). by exists rest.
  - intros (rel & -> & Hne & Hvis & Hhead). by apply copyFiles_reads_the_rest.
Qed.

Lemma copyFiles_eq (t : tree) :
  Forall (fun g => plain g = true) __dirname →
  copyFiles t
  = map (fun pc => (buildContentDirectoryPath
                      ++ path_relative sourceContentDirectoryPath pc.1, pc.2))
      (List.filter (fun pc => selected copyFiles_globs pc.1) t).
Proof.
  intros H. unfold copyFiles.
  rewrite <- (map_id (gulp_src copyFiles_globs None t)).
  rewrite (stage_files copyFiles_globs None _ _ _ id id t eq_refl) by (intros v; unfold id; by destruct (data v)).
  cbn [default id]. unfold relative. cbn [base vpath].
  rewrite glob_parent_magic by (done || by apply plain_sourceContentDirectoryPath).
  apply f_equal. apply filter_ext. intros [p c].
  unfold selected, copyFiles_globs. cbn [positives negatives existsb fst].
  by rewrite orb_false_r.
Qed.

Lemma copyFiles_writes_iff (t : tree) (q : fpath) (c : contents) :
  Forall (fun g => plain g = true) __dirname →
  (q, c) ∈ copyFiles t
  ↔ ∃ rel, q = buildContentDirectoryPath ++ rel
           ∧ (sourceContentDirectoryPath ++ rel, c) ∈ t
           ∧ rel ≠ [] ∧ Forall visible rel
           ∧ ∀ d, head rel = Some d → d ∉ owned_dirs.
Proof.
  intros H. rewrite copyFiles_eq by done. rewrite elem_of_map_filter. split.
  - intros ([p c'] & [= -> ->] & Hin & Hsel). cbn [fst snd] in *.
    apply selected_copyFiles_iff in Hsel as (rel & -> & Hrest); [|done].
    exists rel. by rewrite path_relative_under.
  - intros (rel & -> & Hin & Hrest).
    exists (sourceContentDirectoryPath ++ rel, c). cbn [fst snd].
    rewrite path_relative_under. repeat split; [done|].
    apply selected_copyFiles_iff; [done|]. by exists rel.
Qed.

(** copyFiles writes a file unchanged, at the same path below the build
    content directory as it has below the source content directory; it
    writes exactly the files with no hidden name on their path that are
    outside [html], [scss], [images] and [js]. *)
Theorem copyFiles_writes (t : tree) (q : fpath) (c : contents) :
  Forall (fun g => plain g = true) __dirname →
  (q, c) ∈ copyFiles t
  ↔ ∃ rel, q = buildContentDirectoryPath ++ rel
           ∧ (sourceContentDirectoryPath ++ rel, c) ∈ t
           ∧ rel ≠ [] ∧ Forall visible rel
           ∧ ∀ d, head rel = Some d → d ∉ owned_dirs.
Proof. exact (copyFiles_writes_iff t q c). Qed.

Lemma glob_match_one_star (rest : fpath) :
  glob_match false ["*"] rest = true ↔ ∃ name, rest = [name] ∧ visible name.
Proof.
  destruct rest as [|name rest]; [split; [discriminate | by intros (? & ? & ?)]|].
  rewrite glob_match_last by done.
  rewrite andb_true_iff, seg_match_any, negb_true_iff, bool_decide_eq_true. split.
  - intros [Hv ->]. by exists name.
  - by intros (? & [= <- ->] & ?).
Qed.

(** The direct children of a directory of the source content tree. *)
Lemma glob_match_children (d : string) (p : fpath) :
  Forall (fun g => plain g = true) __dirname → plain d = true →
  glob_match false (sourceContentDirectoryPath ++ [d; "*"]) p = true
  ↔ ∃ name, p = sourceContentDirectoryPath ++ [d; name] ∧ visible name.
Proof.
  intros H Hd.
  rewrite glob_match_under_dir by (done || by apply plain_sourceContentDirectoryPath).
  split.
  - intros (rest & -> & Hm). apply glob_match_one_star in Hm as (name & -> & Hv).
    by exists name.
  - intros (name & -> & Hv). exists [name]. split; [done|].
    apply glob_match_one_star. by exists name.
Qed.

Lemma glob_parent_children (d : string) :
  Forall (fun g => plain g = true) __dirname → plain d = true →
  glob_parent (sourceContentDirectoryPath ++ [d; "*"])
  = sourceContentDirectoryPath ++ [d].
Proof.
  intros H Hd. change [d; "*"] with ([d] ++ "*" :: []).
  rewrite app_assoc. apply glob_parent_magic; [|done].
  apply Forall_app. split; [by apply plain_sourceContentDirectoryPath|].
  by repeat constructor.
Qed.

Lemma path_relative_child (a : fpath) (d name : string) :
  path_relative (a ++ [d]) (a ++ [d; name]) = [name].
Proof.
  change [d; name] with ([d] ++ [name]).
  by rewrite (app_assoc a [d] [name]), path_relative_under.
Qed.

Lemma images_writes_iff (t : tree) (q : fpath) (d : contents) :
  Forall (fun g => plain g = true) __dirname →
  (q, d) ∈ images t
  ↔ ∃ name c, q = buildContentDirectoryPath ++ ["images"; name]
              ∧ d = Apply image c
              ∧ (sourceContentDirectoryPath ++ ["images"; name], c) ∈ t
              ∧ visible name.
Proof.
  intros H. unfold images, through.
  rewrite (stage_files [Pos imageSource] None _ _ _ _ (Apply image) t eq_refl) by done.
  erewrite filter_ext by (intros pc; rewrite ignored_nil; apply andb_true_r).
  rewrite elem_of_map_filter.
  unfold imageSource. cbn [default]. rewrite glob_parent_children by done.
  unfold relative. cbn [base vpath data]. split.
  - intros ([p c] & [= -> ->] & Hin & Hm). cbn [fst] in Hm.
    apply glob_match_children in Hm as (name & -> & Hv); [|done..].
    exists name, c. cbn [fst snd]. repeat split; [|done..].
    rewrite path_relative_child. by rewrite <- ?app_assoc.
  - intros (name & c & -> & -> & Hin & Hv).
    exists (sourceContentDirectoryPath ++ ["images"; name], c).
    cbn [fst snd base vpath data]. repeat split; [|done|].
    + rewrite path_relative_child. by rewrite <- ?app_assoc.
    + apply glob_match_children; [done..|]. by exists name.
Qed.

(** images writes every direct child of [images] with a visible name,
    optimised, under [images] in the build content directory, and nothing
    else: files in sub-directories of [images] are not read. *)
Theorem images_writes (t : tree) (q : fpath) (d : contents) :
  Forall (fun g => plain g = true) __dirname →
  (q, d) ∈ images t
  ↔ ∃ name c, q = buildContentDirectoryPath ++ ["images"; name]
              ∧ d = Apply image c
              ∧ (sourceContentDirectoryPath ++ ["images"; name], c) ∈ t
              ∧ visible name.
Proof. exact (images_writes_iff t q d). Qed.

Lemma js_writes_iff (t : tree) (q : fpath) (d : contents) :
  Forall (fun g => plain g = true) __dirname →
  (q, d) ∈ js t
  ↔ ∃ name c, q = buildContentDirectoryPath ++ [name]
              ∧ d = Apply uglify c
              ∧ (sourceContentDirectoryPath ++ ["js"; name], c) ∈ t
              ∧ visible name.
Proof.
  intros H. unfold js. rewrite js_pipeline_eq. unfold through.
  rewrite (stage_files [Pos JSSource] None _ _ _ _ (Apply uglify) t eq_refl) by done.
  erewrite filter_ext by (intros pc; rewrite ignored_nil; apply andb_true_r).
  rewrite elem_of_map_filter.
  unfold JSSource. cbn [default]. rewrite glob_parent_children by done.
  unfold relative. cbn [base vpath data]. split.
  - intros ([p c] & [= -> ->] & Hin & Hm). cbn [fst] in Hm.
    apply glob_match_children in Hm as (name & -> & Hv); [|done..].
    exists name, c. cbn [fst snd]. repeat split; [|done..].
    rewrite path_relative_child. by rewrite <- ?app_assoc.
  - intros (name & c & -> & -> & Hin & Hv).
    exists (sourceContentDirectoryPath ++ ["js"; name], c).
    cbn [fst snd base vpath data]. repeat split; [|done|].
    + rewrite path_relative_child. by rewrite <- ?app_assoc.
    + apply glob_match_children; [done..|]. by exists name.
Qed.

(** js writes every direct child of [js] with a visible name, minified,
    directly in the build content directory: the [js] directory is not kept
    in the destination.  It writes nothing else. *)
Theorem js_writes (t : tree) (q : fpath) (d : contents) :
  Forall (fun g => plain g = true) __dirname →
  (q, d) ∈ js t
  ↔ ∃ name c, q = buildContentDirectoryPath ++ [name]
              ∧ d = Apply uglify c
              ∧ (sourceContentDirectoryPath ++ ["js"; name], c) ∈ t
              ∧ visible name.
Proof. exact (js_writes_iff t q d). Qed.

Lemma glob_match_exact (dot : bool) (a b : string) (p : fpath) :
  Forall (fun g => plain g = true) __dirname → plain a = true → plain b = true →
  glob_match dot (sourceContentDirectoryPath ++ [a; b]) p = true
  ↔ p = sourceContentDirectoryPath ++ [a; b].
Proof.
  intros H Ha Hb.
  rewrite glob_match_under_dir by (done || by apply plain_sourceContentDirectoryPath).
  split.
  - intros (rest & -> & Hm). rewrite glob_match_plain_cons in Hm by done.
    destruct rest as [|s rest]; [done|].
    apply andb_true_iff in Hm as [->%bool_decide_eq_true Hm].
    by apply bool_decide_eq_true in Hm as ->.
  - intros ->. exists [b]. split; [done|].
    rewrite glob_match_plain_cons by done. by rewrite bool_decide_true.
Qed.

Lemma css_eq (t : tree) :
  css t
  = map (fun pc => (buildContentDirectoryPath
                      ++ ["css"; basename (set_ext ".css" pc.1)],
                    Apply postcss (Apply cleanCSS (Apply sass pc.2))))
      (List.filter
         (fun pc => glob_match false
                      (sourceContentDirectoryPath ++ ["scss"; "styles.scss"]) pc.1)
         t).
Proof.
  unfold css. rewrite css_pipeline_eq.
  unfold rename_dirname, through, sass_plugin. rewrite !map_map.
  rewrite (stage_files css_globs (Some sourceContentDirectoryPath) _ _ _ _
             (fun c => Apply postcss (Apply cleanCSS (Apply sass c))) t eq_refl)
    by (by intros [b p [c|]]).
  erewrite filter_ext by (intros pc; rewrite ignored_nil; apply andb_true_r).
  apply map_ext. intros [p c]. unfold relative. cbn [base vpath data fst snd default].
  by rewrite path_relative_under.
Qed.

Lemma css_writes_iff (t : tree) (q : fpath) (d : contents) :
  Forall (fun g => plain g = true) __dirname →
  (q, d) ∈ css t
  ↔ ∃ c, q = buildContentDirectoryPath ++ ["css"; "styles.css"]
         ∧ d = Apply postcss (Apply cleanCSS (Apply sass c))
         ∧ (sourceContentDirectoryPath ++ ["scss"; "styles.scss"], c) ∈ t.
Proof.
  intros H. rewrite css_eq, elem_of_map_filter.
  assert (basename (set_ext ".css" (sourceContentDirectoryPath ++ ["scss"; "styles.scss"]))
          = "styles.css") as Hname.
  { change ["scss"; "styles.scss"] with (["scss"] ++ ["styles.scss"]).
    rewrite (app_assoc sourceContentDirectoryPath), set_ext_last.
    unfold basename. by rewrite last_last. }
  split.
  - intros ([p c] & [= -> ->] & Hin & Hm). cbn [fst snd] in *.
    apply glob_match_exact in Hm as ->; [|done..].
    exists c. by rewrite Hname.
  - intros (c & -> & -> & Hin).
    exists (sourceContentDirectoryPath ++ ["scss"; "styles.scss"], c).
    cbn [fst snd]. rewrite Hname. repeat split; [done|].
    by apply glob_match_exact.
Qed.

(** css reads [scss/styles.scss] and nothing else, and writes it, compiled,
    minified and prefixed, as [css/styles.css] in the build content
    directory. *)
Theorem css_writes (t : tree) (q : fpath) (d : contents) :
  Forall (fun g => plain g = true) __dirname →
  (q, d) ∈ css t
  ↔ ∃ c, q = buildContentDirectoryPath ++ ["css"; "styles.css"]
         ∧ d = Apply postcss (Apply cleanCSS (Apply sass c))
         ∧ (sourceContentDirectoryPath ++ ["scss"; "styles.scss"], c) ∈ t.
Proof. exact (css_writes_iff t q d). Qed.

Lemma wild_match_suffix_intro (suffix stem : string) :
  plain suffix = true → wild_match (String "*" suffix) (stem +:+ suffix) = true.
Proof.
  intros Hp. induction stem as [|c stem IH].
  - rewrite wild_match_star. apply orb_true_iff. left. by apply wild_match_plain.
  - change (String c stem +:+ suffix) with (String c (stem +:+ suffix)).
    rewrite wild_match_star, IH. by rewrite orb_true_r.
Qed.

(** A visible file name with a given extension. *)
Lemma seg_match_suffix (suffix s : string) :
  plain suffix = true →
  seg_match false (String "*" suffix) s = true
  ↔ visible s ∧ ∃ stem, s = stem +:+ suffix.
Proof.
  intros Hp. unfold seg_match, visible. cbn [negb andb hidden].
  rewrite bool_decide_false by done. rewrite andb_true_r.
  destruct (hidden s).
  - split; [discriminate | by intros [? _]].
  - split.
    + intros Hm. split; [done|]. by apply wild_match_suffix.
    + intros [_ [stem ->]]. by apply wild_match_suffix_intro.
Qed.

(** The paths that [**/g] matches: visible directories, then a name that
    [g] matches. *)
Lemma glob_match_globstar_last (g : string) (rest : fpath) :
  g ≠ "**" →
  glob_match false ["**"; g] rest = true
  ↔ ∃ rel s, rest = rel ++ [s] ∧ Forall visible rel ∧ seg_match false g s = true.
Proof.
  intros Hg. induction rest as [|s0 rest IH].
  - rewrite glob_match_globstar. cbn [glob_match].
    rewrite bool_decide_false by done.
    split; [discriminate|]. intros (rel & s & Heq & _). by destruct rel.
  - rewrite glob_match_globstar, orb_true_iff, andb_true_iff, IH.
    rewrite glob_match_last, andb_true_iff, bool_decide_eq_true by done.
    cbn [orb]. rewrite negb_true_iff. split.
    + intros [[Hs ->] | [Hv (rel & s & -> & Hrel & Hs)]].
      * exists [], s0. by repeat split.
      * exists (s0 :: rel), s. repeat split; [|done]. by constructor.
    + intros (rel & s & Heq & Hrel & Hs). destruct rel as [|r0 rel].
      * injection Heq as -> ->. by left.
      * injection Heq as -> ->. apply Forall_cons in Hrel as [Hr0 Hrel].
        right. split; [done|]. by exists rel, s.
Qed.

(** The markup files: the [.html] files below [html] with only visible
    names on the way. *)
Lemma HTMLSource_iff (p : fpath) :
  Forall (fun g => plain g = true) __dirname →
  glob_match false HTMLSource p = true
  ↔ ∃ rel stem, p = sourceContentDirectoryPath ++ ["html"] ++ rel ++ [stem +:+ ".html"]
                ∧ Forall visible rel ∧ visible (stem +:+ ".html").
Proof.
  intros H. unfold HTMLSource.
  rewrite glob_match_under_dir by (done || by apply plain_sourceContentDirectoryPath).
  split.
  - intros (rest & -> & Hm).
    apply glob_match_globstar_last in Hm as (rel & s & -> & Hrel & Hs); [|done].
    apply seg_match_suffix in Hs as [Hv [stem ->]]; [|done].
    by exists rel, stem.
  - intros (rel & stem & -> & Hrel & Hv). exists (rel ++ [stem +:+ ".html"]).
    split; [done|]. apply glob_match_globstar_last; [done|].
    exists rel, (stem +:+ ".html"). repeat split; [done|].
    apply seg_match_suffix; [done|]. split; [done | by exists stem].
Qed.

Lemma html_eq (t : tree) :
  Forall (fun g => plain g = true) __dirname →
  html t
  = map (fun pc => ((buildContentDirectoryPath ++ ["xhtml"])
                      ++ path_relative (sourceContentDirectoryPath ++ ["html"]) pc.1,
                    pc.2))
      (List.filter (fun pc => glob_match false HTMLSource pc.1) t).
Proof.
  intros H. unfold html.
  rewrite <- (map_id (gulp_src [Pos HTMLSource] None t)).
  rewrite (stage_files [Pos HTMLSource] None _ _ _ id id t eq_refl)
    by (intros v; unfold id; by destruct (data v)).
  erewrite filter_ext by (intros pc; rewrite ignored_nil; apply andb_true_r).
  cbn [default id]. unfold relative. cbn [base vpath].
  by rewrite glob_parent_HTMLSource.
Qed.

Lemma hidden_append (stem suffix : string) :
  stem ≠ "" → hidden (stem +:+ suffix) = hidden stem.
Proof. by destruct stem. Qed.

Lemma visible_html_stem (stem : string) :
  visible (stem +:+ ".html") → stem ≠ "" ∧ visible stem.
Proof.
  intros Hv. assert (stem ≠ "") as Hne by (by intros ->).
  split; [done|]. unfold visible in *.
  by rewrite hidden_append in Hv.
Qed.

Lemma extname_html (stem : string) :
  stem ≠ "" → extname (stem +:+ ".html") = ".html".
Proof.
  intros Hne. unfold extname. rewrite (split_ext_suffix stem ".html") by done.
  by rewrite bool_decide_false.
Qed.

Lemma basename_last (dir : fpath) (name : string) : basename (dir ++ [name]) = name.
Proof. unfold basename. apply last_last. Qed.

Lemma html_writes_iff (t : tree) (q : fpath) (c : contents) :
  Forall (fun g => plain g = true) __dirname →
  (q, c) ∈ html t
  ↔ ∃ rel stem,
      q = buildContentDirectoryPath ++ ["xhtml"] ++ rel ++ [stem +:+ ".html"]
      ∧ (sourceContentDirectoryPath ++ ["html"] ++ rel ++ [stem +:+ ".html"], c) ∈ t
      ∧ Forall visible rel ∧ visible (stem +:+ ".html").
Proof.
  intros H. rewrite html_eq, elem_of_map_filter by done. split.
  - intros ([p c'] & [= -> ->] & Hin & Hm). cbn [fst snd] in *.
    apply HTMLSource_iff in Hm as (rel & stem & -> & Hrel & Hv); [|done].
    exists rel, stem. repeat split; [|done..].
    by rewrite (app_assoc sourceContentDirectoryPath), path_relative_under,
      <- app_assoc.
  - intros (rel & stem & -> & Hin & Hrel & Hv).
    exists (sourceContentDirectoryPath ++ ["html"] ++ rel ++ [stem +:+ ".html"], c).
    cbn [fst snd]. repeat split; [|done|].
    + by rewrite (app_assoc sourceContentDirectoryPath), path_relative_under,
        <- app_assoc.
    + apply HTMLSource_iff; [done|]. by exists rel, stem.
Qed.

(** html writes every markup file unchanged, with its path below [html],
    under [xhtml] in the build content directory, and nothing else. *)
Theorem html_writes (t : tree) (q : fpath) (c : contents) :
  Forall (fun g => plain g = true) __dirname →
  (q, c) ∈ html t
  ↔ ∃ rel stem,
      q = buildContentDirectoryPath ++ ["xhtml"] ++ rel ++ [stem +:+ ".html"]
      ∧ (sourceContentDirectoryPath ++ ["html"] ++ rel ++ [stem +:+ ".html"], c) ∈ t
      ∧ Forall visible rel ∧ visible (stem +:+ ".html").
Proof. exact (html_writes_iff t q c). Qed.

(** ** Replacing the extension in a path *)

Lemma string_replace_cons (old new : string) (c : ascii) (s : string) :
  string_replace old new (String c s)
  = if starts_with old (String c s)
    then new +:+ drop_chars (String.length old) (String c s)
    else String c (string_replace old new s).
Proof. reflexivity. Qed.

Lemma contains_cons (old : string) (c : ascii) (s : string) :
  contains old (String c s) = starts_with old (String c s) || contains old s.
Proof. reflexivity. Qed.

(** An occurrence of [.html] that starts in a name does not run into an
    extension [.html] appended to it. *)
Lemma starts_with_html_append (c : ascii) (s : string) :
  starts_with ".html" (String c (s +:+ ".html")) = true →
  starts_with ".html" (String c s) = true.
Proof.
  destruct s as [|c1 [|c2 [|c3 [|c4 s]]]]; cbn;
    repeat (case_bool_decide; cbn; try done); simplify_eq.
Qed.

Lemma contains_html_extension (stem : string) :
  contains ".html" (stem +:+ ".html") = true.
Proof.
  induction stem as [|c stem IH]; [reflexivity|].
  change (String c stem +:+ ".html") with (String c (stem +:+ ".html")).
  rewrite contains_cons, IH. apply orb_true_r.
Qed.

(** Where [.html] occurs in a name only as its extension, replacing the
    first occurrence replaces the extension. *)
Lemma string_replace_extension (stem : string) :
  contains ".html" stem = false →
  string_replace ".html" ".xhtml" (stem +:+ ".html") = stem +:+ ".xhtml".
Proof.
  induction stem as [|c stem IH]; [reflexivity|].
  rewrite contains_cons. intros [Hc Hstem]%orb_false_iff.
  change (String c stem +:+ ".html") with (String c (stem +:+ ".html")).
  rewrite string_replace_cons.
  destruct (starts_with ".html" (String c (stem +:+ ".html"))) eqn:E.
  - apply starts_with_html_append in E. congruence.
  - by rewrite IH.
Qed.

Lemma path_replace_skip (old new : string) (pre rest : fpath) :
  Forall (fun s => contains old s = false) pre →
  path_replace old new (pre ++ rest) = pre ++ path_replace old new rest.
Proof.
  induction 1 as [|s pre Hs Hpre IH]; [done|].
  cbn [app path_replace]. by rewrite Hs, IH.
Qed.

Lemma path_replace_extension (rel : fpath) (stem : string) :
  Forall (fun s => contains ".html" s = false) rel →
  contains ".html" stem = false →
  path_replace ".html" ".xhtml" (rel ++ [stem +:+ ".html"])
  = rel ++ [stem +:+ ".xhtml"].
Proof.
  intros Hrel Hstem. rewrite path_replace_skip by done.
  cbn [path_replace]. by rewrite contains_html_extension, string_replace_extension.
Qed.

Lemma path_replace_length (old new : string) (p : fpath) :
  length (path_replace old new p) = length p.
Proof.
  induction p as [|s p IH]; [done|].
  cbn [path_replace]. destruct (contains old s); cbn; by rewrite ?IH.
Qed.

(** A replacement leaves a visible name visible: it starts at a dot, and
    a visible name does not start with one. *)
Lemma string_replace_visible (s : string) :
  visible s → visible (string_replace ".html" ".xhtml" s).
Proof.
  unfold visible. destruct s as [|c s]; [done|].
  rewrite string_replace_cons. cbn [hidden starts_with].
  intros Hc. by rewrite bool_decide_false by (intros <-; by rewrite bool_decide_true in Hc).
Qed.

Lemma path_replace_visible (p : fpath) :
  Forall visible p → Forall visible (path_replace ".html" ".xhtml" p).
Proof.
  induction 1 as [|s p Hs Hp IH]; [constructor|].
  cbn [path_replace]. destruct (contains ".html" s); constructor; try done.
  by apply string_replace_visible.
Qed.

Lemma path_replace_nonempty (old new : string) (p : fpath) :
  p ≠ [] → path_replace old new p ≠ [].
Proof.
  intros Hp Heq. apply (f_equal length) in Heq.
  rewrite path_replace_length in Heq. by destruct p.
Qed.

Lemma path_relative_nil (a b : fpath) : path_relative a b = [] → a = b.
Proof.
  revert b. induction a as [|x a IH]; intros [|y b]; cbn; try done.
  case_bool_decide as Hxy; [|done]. intros Hr. subst y. f_equal. by apply IH.
Qed.

(** The project directory, [src], [EPUB] and [html] hold no [.html]. *)
Lemma no_html_source :
  Forall (fun s => contains ".html" s = false) __dirname →
  Forall (fun s => contains ".html" s = false) (sourceContentDirectoryPath ++ ["html"]).
Proof.
  intros H. unfold sourceContentDirectoryPath, sourceDirectoryPath, path_resolve.
  rewrite !Forall_app. repeat split; [done|..]; by repeat constructor.
Qed.

Lemma no_html_build :
  Forall (fun s => contains ".html" s = false) __dirname →
  Forall (fun s => contains ".html" s = false) (buildContentDirectoryPath ++ ["xhtml"]).
Proof.
  intros H.
  change buildContentDirectoryPath with (buildDirectoryPath ++ ["textbook"; "EPUB"]).
  unfold buildDirectoryPath, path_resolve.
  rewrite !Forall_app. repeat split; [done|..]; by repeat constructor.
Qed.

(** ** The xhtml stage *)

Lemma xhtml_eq (t : tree) :
  Forall (fun g => plain g = true) __dirname →
  xhtml t
  = map (fun pc => ((buildContentDirectoryPath ++ ["xhtml"])
                      ++ path_relative (sourceContentDirectoryPath ++ ["html"])
                           (path_replace ".html" ".xhtml" pc.1),
                    pc.2))
      (List.filter (fun pc => glob_match false HTMLSource pc.1) t).
Proof.
  intros H. unfold xhtml, extensionReplace.
  rewrite (stage_files [Pos HTMLSource] None _ _ _ _ id t eq_refl)
    by (intros v; unfold extensionReplace_file, id; cbn [data]; by destruct (data v)).
  erewrite filter_ext by (intros pc; rewrite ignored_nil; apply andb_true_r).
  cbn [default id]. rewrite glob_parent_HTMLSource by done.
  apply map_ext_in. intros [p c] Hin. apply filter_In in Hin as [_ Hm].
  cbn [fst snd] in *.
  apply HTMLSource_iff in Hm as (rel & stem & -> & _ & Hv); [|done].
  apply visible_html_stem in Hv as [Hne _].
  unfold relative, extensionReplace_file. cbn [base vpath].
  rewrite !app_assoc, basename_last, extname_html by done.
  by rewrite bool_decide_false.
Qed.

(** With no [.html] in the path of the project, the replacement is made
    below [html], and the file stays below [xhtml] in the build. *)
Lemma xhtml_destination (rel : fpath) :
  Forall (fun s => contains ".html" s = false) __dirname →
  (buildContentDirectoryPath ++ ["xhtml"])
    ++ path_relative (sourceContentDirectoryPath ++ ["html"])
         (path_replace ".html" ".xhtml"
            (sourceContentDirectoryPath ++ ["html"] ++ rel))
  = buildContentDirectoryPath ++ ["xhtml"] ++ path_replace ".html" ".xhtml" rel.
Proof.
  intros H2. rewrite (app_assoc sourceContentDirectoryPath).
  rewrite path_replace_skip by (by apply no_html_source).
  by rewrite path_relative_under, <- app_assoc.
Qed.

Lemma xhtml_writes_iff (t : tree) (q : fpath) (c : contents) :
  Forall (fun g => plain g = true) __dirname →
  Forall (fun s => contains ".html" s = false) __dirname →
  (q, c) ∈ xhtml t
  ↔ ∃ rel stem,
      q = buildContentDirectoryPath ++ ["xhtml"]
            ++ path_replace ".html" ".xhtml" (rel ++ [stem +:+ ".html"])
      ∧ (sourceContentDirectoryPath ++ ["html"] ++ rel ++ [stem +:+ ".html"], c) ∈ t
      ∧ Forall visible rel ∧ visible (stem +:+ ".html").
Proof.
  intros H H2. rewrite xhtml_eq, elem_of_map_filter by done. split.
  - intros ([p c'] & [= -> ->] & Hin & Hm). cbn [fst snd] in *.
    apply HTMLSource_iff in Hm as (rel & stem & -> & Hrel & Hv); [|done].
    exists rel, stem. by rewrite xhtml_destination.
  - intros (rel & stem & -> & Hin & Hrel & Hv).
    exists (sourceContentDirectoryPath ++ ["html"] ++ rel ++ [stem +:+ ".html"], c).
    cbn [fst snd]. rewrite xhtml_destination by done. repeat split; [done|].
    apply HTMLSource_iff; [done|]. by exists rel, stem.
Qed.

(** Whatever the path of the project, what xhtml writes is below [xhtml]
    in the build content directory. *)
Lemma xhtml_output_below_xhtml (t : tree) (q : fpath) (c : contents) :
  Forall (fun g => plain g = true) __dirname →
  (q, c) ∈ xhtml t →
  ∃ rest, rest ≠ [] ∧ q = buildContentDirectoryPath ++ "xhtml" :: rest.
Proof.
  intros H. rewrite xhtml_eq, elem_of_map_filter by done.
  intros ([p c'] & [= -> ->] & Hin & Hm). cbn [fst snd] in *.
  apply HTMLSource_iff in Hm as (rel & stem & -> & _ & _); [|done].
  eexists. split; [|by rewrite <- app_assoc].
  intros Heq%path_relative_nil. apply (f_equal length) in Heq.
  rewrite path_replace_length, !length_app in Heq. cbn in Heq. lia.
Qed.

(** With no [.html] in the path of the project, xhtml writes exactly the
    markup files, with their contents unchanged, under [xhtml] in the build
    content directory, each at the path it has below [html] with the first
    occurrence of [.html] in that path replaced by [.xhtml].  That
    occurrence is the extension of the file when [.html] occurs nowhere
    before it. *)
Theorem xhtml_writes (t : tree) (q : fpath) (c : contents) :
  Forall (fun g => plain g = true) __dirname →
  Forall (fun s => contains ".html" s = false) __dirname →
  ((q, c) ∈ xhtml t
   ↔ ∃ rel stem,
       q = buildContentDirectoryPath ++ ["xhtml"]
             ++ path_replace ".html" ".xhtml" (rel ++ [stem +:+ ".html"])
       ∧ (sourceContentDirectoryPath ++ ["html"] ++ rel ++ [stem +:+ ".html"], c) ∈ t
       ∧ Forall visible rel ∧ visible (stem +:+ ".html"))
  ∧ ∀ rel stem,
      Forall (fun s => contains ".html" s = false) rel →
      contains ".html" stem = false →
      path_replace ".html" ".xhtml" (rel ++ [stem +:+ ".html"])
      = rel ++ [stem +:+ ".xhtml"].
Proof.
  intros H H2. split; [by apply xhtml_writes_iff|].
  intros rel stem. apply path_replace_extension.
Qed.

(** The xhtml stage writes what the html stage writes, file by file in the
    same order, with the first occurrence of [.html] in every written path
    replaced by [.xhtml]. *)
Theorem xhtml_of_html (t : tree) :
  Forall (fun g => plain g = true) __dirname →
  Forall (fun s => contains ".html" s = false) __dirname →
  xhtml t = map (fun qc => (path_replace ".html" ".xhtml" qc.1, qc.2)) (html t).
Proof.
  intros H H2. rewrite xhtml_eq, html_eq, map_map by done.
  apply map_ext_in. intros [p c] Hin. cbn [fst snd].
  apply filter_In in Hin as [_ Hm]. cbn [fst] in Hm.
  apply HTMLSource_iff in Hm as (rel & stem & -> & _ & _); [|done].
  rewrite xhtml_destination by done.
  rewrite (app_assoc sourceContentDirectoryPath), path_relative_under.
  rewrite (path_replace_skip _ _ (buildContentDirectoryPath ++ ["xhtml"]))
    by (by apply no_html_build).
  by rewrite <- app_assoc.
Qed.

(** A file directly in the source content directory and a file of the same
    name in [js] are written to the same destination, one by copyFiles and
    one by js. *)
Theorem copyFiles_js_same_destination (t : tree) (name : string) (c1 c2 : contents) :
  Forall (fun g => plain g = true) __dirname →
  visible name → name ∉ owned_dirs →
  (sourceContentDirectoryPath ++ [name], c1) ∈ t →
  (sourceContentDirectoryPath ++ ["js"; name], c2) ∈ t →
  (buildContentDirectoryPath ++ [name], c1) ∈ copyFiles t
  ∧ (buildContentDirectoryPath ++ [name], Apply uglify c2) ∈ js t.
Proof.
  intros H Hv Hname H1 H2. split.
  - apply copyFiles_writes_iff; [done|]. exists [name].
    repeat split; [done..| by repeat constructor |].
    by intros d [= <-].
  - apply js_writes_iff; [done|]. by exists name, c2.
Qed.

(** watchCSS watches every [.scss] file below [scss], the partials too; the
    one file that css reads is among them. *)
Theorem watchCSS_covers (p : fpath) :
  Forall (fun g => plain g = true) __dirname →
  (glob_match false (watched watchCSS) p = true
   ↔ ∃ rel stem, p = sourceContentDirectoryPath ++ ["scss"] ++ rel ++ [stem +:+ ".scss"]
                 ∧ Forall visible rel ∧ visible (stem +:+ ".scss"))
  ∧ (selected css_globs p = true → glob_match false (watched watchCSS) p = true).
Proof.
  intros H.
  assert (glob_match false (watched watchCSS) p = true
   ↔ ∃ rel stem, p = sourceContentDirectoryPath ++ ["scss"] ++ rel ++ [stem +:+ ".scss"]
                 ∧ Forall visible rel ∧ visible (stem +:+ ".scss")) as Hiff.
  { cbn [watched watchCSS]. unfold CSSSource.
    rewrite glob_match_under_dir by (done || by apply plain_sourceContentDirectoryPath).
    split.
    - intros (rest & -> & Hm).
      apply glob_match_globstar_last in Hm as (rel & s & -> & Hrel & Hs); [|done].
      apply seg_match_suffix in Hs as [Hv [stem ->]]; [|done].
      by exists rel, stem.
    - intros (rel & stem & -> & Hrel & Hv). exists (rel ++ [stem +:+ ".scss"]).
      split; [done|]. apply glob_match_globstar_last; [done|].
      exists rel, (stem +:+ ".scss"). repeat split; [done|].
      apply seg_match_suffix; [done|]. split; [done | by exists stem]. }
  split; [done|]. unfold css_globs. rewrite selected_single.
  intros ->%glob_match_exact; [|done..].
  apply Hiff. by exists [], "styles".
Qed.

(** ** Packaging any file system *)

Lemma elem_of_ancestors (d p : fpath) :
  d ∈ ancestors p ↔ d ≠ [] ∧ ∃ k, k ≠ [] ∧ p = d ++ k.
Proof.
  revert d. induction p as [|s p IH]; intros d.
  - split; [by intros ?%elem_of_nil|]. intros (Hd & k & Hk & Heq). by destruct d.
  - destruct p as [|s' p'].
    + split; [by intros ?%elem_of_nil|]. intros (Hd & k & Hk & Heq).
      destruct d as [|x [|y d]], k; simplify_eq.
    + cbn [ancestors]. rewrite elem_of_cons, list_elem_of_In, in_map_iff. split.
      * intros [-> | (d' & <- & Hd')].
        { split; [done|]. by exists (s' :: p'). }
        apply list_elem_of_In, IH in Hd' as (Hd' & k & Hk & Heq).
        split; [done|]. exists k. split; [done|]. by rewrite Heq.
      * intros (Hd & k & Hk & Heq). destruct d as [|x d]; [done|].
        injection Heq as <- Heq. destruct d as [|y d]; [by left|].
        right. exists (y :: d). split; [done|].
        apply list_elem_of_In, IH. split; [done|]. by exists k.
Qed.

(** A directory of the tree: a path with a file somewhere below it. *)
Lemma elem_of_directories (d : fpath) (t : tree) :
  d ∈ directories t ↔ d ≠ [] ∧ ∃ k c, k ≠ [] ∧ (d ++ k, c) ∈ t.
Proof.
  unfold directories.
  rewrite elem_of_reverse, elem_of_remove_dups, elem_of_reverse.
  rewrite list_elem_of_In, in_flat_map. split.
  - intros ([p c] & Hin & Hd). apply list_elem_of_In, elem_of_ancestors in Hd
      as (Hd & k & Hk & Heq). cbn [fst] in Heq. subst p.
    split; [done|]. exists k, c. by rewrite list_elem_of_In.
  - intros (Hd & k & c & Hk & Hin). exists (d ++ k, c).
    split; [by apply list_elem_of_In|].
    apply list_elem_of_In, elem_of_ancestors. split; [done|]. by exists k.
Qed.

Lemma NoDup_directories (t : tree) : NoDup (directories t).
Proof.
  unfold directories. rewrite reverse_Permutation. apply NoDup_remove_dups.
Qed.

(** The paths that the packaging glob matches. *)
Lemma packaging_glob_iff (p : fpath) :
  Forall (fun g => plain g = true) __dirname →
  glob_match false (buildDirectoryPath ++ ["**"; "*"]) p = true
  ↔ ∃ rel, p = buildDirectoryPath ++ rel ∧ rel ≠ [] ∧ Forall visible rel.
Proof.
  intros H. rewrite glob_match_under by (by apply plain_buildDirectoryPath).
  split.
  - intros (rel & -> & Hm). apply glob_match_everything in Hm. by exists rel.
  - intros (rel & -> & Hm). exists rel. split; [done|].
    by apply glob_match_everything.
Qed.

(** zipEpub on any file system: one archive in the working directory, or
    nothing; the file entries and the directory entries of the archive. *)
Lemma zipEpub_spec (t : tree) :
  Forall (fun g => plain g = true) __dirname →
  ∃ es,
    zipEpub t = match es with
                | [] => []
                | _ => [(cwd ++ [zipEpub_name], Archive es)]
                end
    ∧ (∀ rel c, (rel, Some c) ∈ es
                ↔ (buildDirectoryPath ++ rel, c) ∈ t ∧ rel ≠ [] ∧ Forall visible rel)
    ∧ (∀ rel, (rel, None) ∈ es
              ↔ rel ≠ [] ∧ Forall visible rel
                ∧ ∃ k c, k ≠ [] ∧ (buildDirectoryPath ++ rel ++ k, c) ∈ t)
    ∧ (NoDup t → NoDup es).
Proof.
  intros H.
  exists (map (fun f => (relative f, data f))
            (gulp_src [Pos (buildDirectoryPath ++ ["**"; "*"])] None t)).
  split; [|split; [|split]].
  - unfold zipEpub, zip.
    destruct (gulp_src _ None t) as [|f0 s]; [done|].
    unfold gulp_dest. cbn [omap list_omap data fmap option_fmap option_map map].
    unfold relative at 1. cbn [base vpath]. by rewrite path_relative_under.
  - intros rel c. unfold gulp_src. cbn [positives negatives flat_map default].
    rewrite app_nil_r, map_app, !map_map, elem_of_app.
    rewrite glob_parent_magic by (done || by apply plain_buildDirectoryPath).
    unfold relative. cbn [base vpath data].
    rewrite !elem_of_map_filter. split.
    + intros [(d & [=] & _) | ([p c'] & [= -> ->] & Hin & Hm)].
      cbn [fst snd] in *. rewrite ignored_nil, andb_true_r in Hm.
      apply packaging_glob_iff in Hm as (rel & -> & Hne & Hvis); [|done].
      by rewrite path_relative_under.
    + intros (Hin & Hne & Hvis). right. exists (buildDirectoryPath ++ rel, c).
      cbn [fst snd base vpath data].
      rewrite path_relative_under, ignored_nil, andb_true_r.
      repeat split; [done|]. apply packaging_glob_iff; [done|]. by exists rel.
  - intros rel. unfold gulp_src. cbn [positives negatives flat_map default].
    rewrite app_nil_r, map_app, !map_map, elem_of_app.
    rewrite glob_parent_magic by (done || by apply plain_buildDirectoryPath).
    unfold relative. cbn [base vpath data].
    rewrite !elem_of_map_filter. split.
    + intros [(d & [= ->] & Hin & Hm) | ([p c'] & [=] & _)].
      rewrite ignored_nil, andb_true_r in Hm.
      apply packaging_glob_iff in Hm as (rel & -> & Hne & Hvis); [|done].
      rewrite path_relative_under. repeat split; [done..|].
      apply elem_of_directories in Hin as (_ & k & c & Hk & Hin).
      exists k, c. by rewrite <- app_assoc in Hin.
    + intros (Hne & Hvis & k & c & Hk & Hin). left.
      exists (buildDirectoryPath ++ rel). cbn [base vpath data].
      rewrite path_relative_under, ignored_nil, andb_true_r. repeat split.
      * apply elem_of_directories. split; [by destruct buildDirectoryPath, rel|].
        exists k, c. by rewrite <- app_assoc.
      * apply packaging_glob_iff; [done|]. by exists rel.
  - intros Hnd. unfold gulp_src. cbn [positives negatives flat_map default].
    rewrite app_nil_r, map_app, !map_map.
    rewrite glob_parent_magic by (done || by apply plain_buildDirectoryPath).
    unfold relative. cbn [base vpath data].
    apply NoDup_app. split; [|split].
    + apply NoDup_map_in; [| apply NoDup_List_filter, NoDup_directories].
      intros d1 d2 Hd1%list_elem_of_In Hd2%list_elem_of_In.
      apply filter_In in Hd1 as [_ Hd1]. apply filter_In in Hd2 as [_ Hd2].
      rewrite ignored_nil, andb_true_r in Hd1, Hd2.
      apply packaging_glob_iff in Hd1 as (r1 & -> & _); [|done].
      apply packaging_glob_iff in Hd2 as (r2 & -> & _); [|done].
      rewrite !path_relative_under. by intros [= ->].
    + intros x (d & -> & _)%elem_of_map_filter ([p c] & [=] & _)%elem_of_map_filter.
    + apply NoDup_map_in; [| by apply NoDup_List_filter].
      intros [p1 c1] [p2 c2] Hd1%list_elem_of_In Hd2%list_elem_of_In.
      apply filter_In in Hd1 as [_ Hd1]. apply filter_In in Hd2 as [_ Hd2].
      cbn [fst snd] in *. rewrite ignored_nil, andb_true_r in Hd1, Hd2.
      apply packaging_glob_iff in Hd1 as (r1 & -> & _); [|done].
      apply packaging_glob_iff in Hd2 as (r2 & -> & _); [|done].
      cbn [base vpath data]. rewrite !path_relative_under. by intros [= -> ->].
Qed.


Lemma buildContentDirectoryPath_eq :
  buildContentDirectoryPath = buildDirectoryPath ++ ["textbook"; "EPUB"].
Proof. reflexivity. Qed.

(** What a content stage writes is below the build content directory and
    has no hidden name on its path. *)
Lemma stage_output_visible (stage : tree → tree) (src : tree) (q : fpath) (c : contents) :
  Forall (fun g => plain g = true) __dirname →
  Forall (fun s => contains ".html" s = false) __dirname →
  stage ∈ [copyFiles; html; xhtml; css; images; js] →
  (q, c) ∈ stage src →
  ∃ rel, q = buildContentDirectoryPath ++ rel ∧ rel ≠ [] ∧ Forall visible rel.
Proof.
  intros H H2 Hstage Hq. set_unfold in Hstage.
  destruct Hstage as [->|[->|[->|[->|[->|[->|[]]]]]]].
  - apply copyFiles_writes_iff in Hq as (rel & -> & _ & Hne & Hvis & _); [|done].
    by exists rel.
  - apply html_writes_iff in Hq as (rel & stem & -> & _ & Hrel & Hv); [|done].
    exists (["xhtml"] ++ rel ++ [stem +:+ ".html"]). repeat split; [done|].
    constructor; [done|]. apply Forall_app. split; [done|]. by repeat constructor.
  - apply xhtml_writes_iff in Hq as (rel & stem & -> & _ & Hrel & Hv); [|done..].
    exists (["xhtml"] ++ path_replace ".html" ".xhtml" (rel ++ [stem +:+ ".html"])).
    repeat split; [done|]. constructor; [done|].
    apply path_replace_visible, Forall_app. split; [done|]. by repeat constructor.
  - apply css_writes_iff in Hq as (c' & -> & _ & _); [|done].
    exists ["css"; "styles.css"]. repeat split; [done|]. by repeat constructor.
  - apply images_writes_iff in Hq as (name & c' & -> & _ & _ & Hv); [|done].
    exists ["images"; name]. repeat split; [done|]. by repeat constructor.
  - apply js_writes_iff in Hq as (name & c' & -> & _ & _ & Hv); [|done].
    exists [name]. repeat split; [done|]. by repeat constructor.
Qed.

(** With no [.html] in the path of the project, every file that a
    content stage writes is archived by zipEpub when it is in the file
    system: the stages write no file that the packaging glob does not
    read. *)
Theorem stage_outputs_are_archived (stage : tree → tree) (src fs : tree)
    (q : fpath) (c : contents) :
  Forall (fun g => plain g = true) __dirname →
  Forall (fun s => contains ".html" s = false) __dirname →
  stage ∈ [copyFiles; html; xhtml; css; images; js] →
  (q, c) ∈ stage src → (q, c) ∈ fs →
  ∃ rel es, q = buildDirectoryPath ++ rel
            ∧ zipEpub fs = [(cwd ++ [zipEpub_name], Archive es)]
            ∧ (rel, Some c) ∈ es.
Proof.
  intros H H2 Hstage Hq Hfs.
  destruct (stage_output_visible stage src q c H H2 Hstage Hq)
    as (rel & -> & Hne & Hvis).
  destruct (zipEpub_spec fs H) as (es & Hzip & Hes & _).
  rewrite buildContentDirectoryPath_eq, <- app_assoc in Hfs.
  assert ((["textbook"; "EPUB"] ++ rel, Some c) ∈ es) as Hin.
  { apply Hes. repeat split; [done..|]. by repeat constructor. }
  exists (["textbook"; "EPUB"] ++ rel), es.
  rewrite buildContentDirectoryPath_eq, <- app_assoc. repeat split; [|done].
  rewrite Hzip. destruct es; [|done]. by apply elem_of_nil in Hin.
Qed.

(** ** Cleaning *)

(** When gulp runs in the directory of the gulpfile, cleanFiles removes
    only files below the build directory, keeps every file below the
    source directory, and leaves nothing for zipEpub to archive. *)
Theorem cleanFiles_clears_build (t : tree) :
  cwd = __dirname →
  Forall (fun g => plain g = true) __dirname →
  (∀ p c, (p, c) ∈ cleanFiles t
          ↔ (p, c) ∈ t ∧ ¬ buildDirectoryPath `prefix_of` p)
  ∧ (∀ p c, (p, c) ∈ t → sourceDirectoryPath `prefix_of` p → (p, c) ∈ cleanFiles t)
  ∧ zipEpub (cleanFiles t) = [].
Proof.
  intros Hcwd H.
  assert (∀ p c, (p, c) ∈ cleanFiles t
                 ↔ (p, c) ∈ t ∧ ¬ buildDirectoryPath `prefix_of` p) as Hclean.
  { intros p c. unfold cleanFiles. rewrite Hcwd.
    rewrite list_elem_of_In, filter_In, <- list_elem_of_In. cbn [fst].
    by rewrite negb_true_iff, bool_decide_eq_false. }
  split; [done|]. split.
  - intros p c Hin [k ->]. apply Hclean. split; [done|].
    intros [k' Heq]. unfold sourceDirectoryPath, buildDirectoryPath, path_resolve in Heq.
    rewrite <- !app_assoc in Heq. by apply app_inv_head in Heq.
  - destruct (zipEpub_spec (cleanFiles t) H) as (es & -> & Hfiles & Hdirs).
    destruct es as [|[rel [c|]] es]; [done|exfalso..].
    + assert ((rel, Some c) ∈ (rel, Some c) :: es) as Hin by apply list_elem_of_here.
      apply Hfiles in Hin as (Hin & _). apply Hclean in Hin as [_ Hno].
      destruct Hno. by exists rel.
    + assert ((rel, None) ∈ (rel, @None contents) :: es) as Hin
        by apply list_elem_of_here.
      apply Hdirs in Hin as (_ & _ & k & c & _ & Hin).
      apply Hclean in Hin as [_ Hno]. destruct Hno. by exists (rel ++ k).
Qed.

(** ** Callback tasks *)

Lemma serve_log (w : world) :
  log (serve w)
  = log w ++ [BrowserInit ["build"; "textbook"; "EPUB"] 3000 "/xhtml"; DoneOk].
Proof.
  unfold serve, done_ok, emit, browser_init. cbn [log].
  rewrite buildContentDirectoryPath_eq. unfold buildDirectoryPath, path_resolve.
  by rewrite <- !app_assoc, path_relative_under.
Qed.

(** serve starts the server on the build content directory, given
    relative to the directory of the gulpfile, on port 3000 with start
    path [/xhtml], for every location of the project and every
    environment, and then signals completion. *)
Theorem serve_serves_build_content (w : world) :
  log (serve w)
  = log w ++ [BrowserInit ["build"; "textbook"; "EPUB"] 3000 "/xhtml"; DoneOk]
  ∧ __dirname ++ ["build"; "textbook"; "EPUB"] = buildContentDirectoryPath
  ∧ serving (serve w) = true
  ∧ running (serve w) = running w.
Proof.
  split; [apply serve_log|]. repeat split.
  rewrite buildContentDirectoryPath_eq. unfold buildDirectoryPath, path_resolve.
  by rewrite <- app_assoc.
Qed.

(** Every task of the registry that takes the [done] callback signals
    completion exactly once when it is called, and always with success. *)
Theorem callback_tasks_signal_success_once (name : string) (run : world → world)
    (w : world) :
  lookup_task name = Some (Callback run) →
  signals (run w) = signals w ++ [DoneOk].
Proof.
  unfold lookup_task, registry. cbn [List.find fst].
  repeat (case_bool_decide; [intros [= <-] | ]); try discriminate.
  - apply validate_signals.
  - unfold signals. by rewrite serve_log, filter_app.
  - unfold signals, reload, done_ok, emit. cbn [log JS.truthy browser Browser_create].
    by rewrite !filter_app, <- app_assoc.
Qed.

(** ** Destinations and watchers *)

(** The markup stage (html or xhtml), css, images and js never write to
    the same path: their destinations are pairwise disjoint, whatever trees
    they read.  (copyFiles is the stage that can write where another stage
    writes.) *)
Theorem specialised_stages_write_apart (markup : tree → tree)
    (n1 n2 : string) (s1 s2 : tree → tree) (t1 t2 : tree)
    (q : fpath) (c1 c2 : contents) :
  Forall (fun g => plain g = true) __dirname →
  markup = html ∨ markup = xhtml →
  (n1, s1) ∈ [("markup", markup); ("css", css); ("images", images); ("js", js)] →
  (n2, s2) ∈ [("markup", markup); ("css", css); ("images", images); ("js", js)] →
  n1 ≠ n2 →
  (q, c1) ∈ s1 t1 → (q, c2) ∉ s2 t2.
Proof.
  intros H Hm Hs1 Hs2 Hne H1 H2.
  assert (∀ s t c, (q, c) ∈ s t → s = markup →
            ∃ rest, rest ≠ [] ∧ q = buildContentDirectoryPath ++ "xhtml" :: rest)
    as Hmarkup.
  { intros s t c Hq ->. destruct Hm as [-> | ->].
    - apply html_writes_iff in Hq as (rel & stem & -> & _); [|done].
      exists (rel ++ [stem +:+ ".html"]). split; [by destruct rel | done].
    - by apply xhtml_output_below_xhtml in Hq. }
  set_unfold in Hs1. set_unfold in Hs2.
  destruct Hs1 as [[= -> ->]|[[= -> ->]|[[= -> ->]|[[= -> ->]|[]]]]];
    destruct Hs2 as [[= -> ->]|[[= -> ->]|[[= -> ->]|[[= -> ->]|[]]]]];
    try done;
    repeat match goal with
      | Hq : (q, _) ∈ markup _ |- _ =>
          apply (fun Hq => Hmarkup _ _ _ Hq eq_refl) in Hq as (? & ? & Hq)
      | Hq : (q, _) ∈ css _ |- _ =>
          apply css_writes_iff in Hq as (? & Hq & _); [|done]
      | Hq : (q, _) ∈ images _ |- _ =>
          apply images_writes_iff in Hq as (? & ? & Hq & _); [|done]
      | Hq : (q, _) ∈ js _ |- _ =>
          apply js_writes_iff in Hq as (? & ? & Hq & _); [|done]
      end;
    subst q;
    match goal with
    | Heq : _ ++ _ = _ ++ _ |- _ => apply app_inv_head in Heq
    end;
    by simplify_eq.
Qed.

(** The watchers that dev and buildProof start react to markup and style
    sources only: a change to a file outside [html] and [scss] (an image, a
    script, any other file) starts no task. *)
Theorem started_watchers_cover_html_and_scss_only (composition : task)
    (name : string) (w : watcher) (p : fpath) :
  Forall (fun g => plain g = true) __dirname →
  composition = dev ∨ composition = buildProof →
  name ∈ leaves composition →
  lookup_task name = Some (Watch w) →
  glob_match false (watched w) p = true →
  (∃ rest, p = sourceContentDirectoryPath ++ "html" :: rest)
  ∨ (∃ rest, p = sourceContentDirectoryPath ++ "scss" :: rest).
Proof.
  intros H Hc Hname Hw Hm.
  assert (w = watchHTML ∨ w = watchXHTML ∨ w = watchCSS) as Hcases.
  { destruct Hc as [-> | ->]; cbn in Hname; set_unfold in Hname;
      repeat (destruct Hname as [-> | Hname]; [cbv in Hw; simplify_eq; auto|]);
      done. }
  destruct Hcases as [-> | [-> | ->]]; cbn [watched watchHTML watchXHTML watchCSS] in Hm.
  - left. apply html_in_dir; [done|]. by rewrite selected_single.
  - left. apply html_in_dir; [done|]. by rewrite selected_single.
  - right. unfold CSSSource in Hm.
    apply glob_match_under_dir in Hm as (rest & -> & _);
      [| by apply plain_sourceContentDirectoryPath | done].
    by exists rest.
Qed.

(** * Stage inputs, markup and packaging *)

Lemma matching_stages_eq (p : fpath) :
  matching_stages p
  = (if selected copyFiles_globs p then ["copyFiles"] else [])
    ++ (if selected [Pos HTMLSource] p then ["html"] else [])
    ++ (if selected css_globs p then ["css"] else [])
    ++ (if selected [Pos imageSource] p then ["images"] else [])
    ++ (if selected [Pos JSSource] p then ["js"] else []).
Proof.
  unfold matching_stages, content_stages. cbn [List.filter snd].
  by destruct (selected copyFiles_globs p), (selected [Pos HTMLSource] p),
    (selected css_globs p), (selected [Pos imageSource] p),
    (selected [Pos JSSource] p).
Qed.

(** The input sets of the stages: a path is read by at most one stage, and
    each stage reads these files. *)
Lemma stage_inputs (p : fpath) :
  Forall (fun g => plain g = true) __dirname →
  matching_stages p ∈ [[]; ["copyFiles"]; ["html"]; ["css"]; ["images"]; ["js"]]
  ∧ (matching_stages p = ["copyFiles"]
     ↔ ∃ rel, p = sourceContentDirectoryPath ++ rel ∧ rel ≠ []
              ∧ Forall visible rel
              ∧ ∀ d, head rel = Some d → d ∉ owned_dirs)
  ∧ (matching_stages p = ["html"]
     ↔ ∃ rel stem,
         p = sourceContentDirectoryPath ++ ["html"] ++ rel ++ [stem +:+ ".html"]
         ∧ Forall visible rel ∧ visible (stem +:+ ".html"))
  ∧ (matching_stages p = ["css"]
     ↔ p = sourceContentDirectoryPath ++ ["scss"; "styles.scss"])
  ∧ (matching_stages p = ["images"]
     ↔ ∃ name, p = sourceContentDirectoryPath ++ ["images"; name] ∧ visible name)
  ∧ (matching_stages p = ["js"]
     ↔ ∃ name, p = sourceContentDirectoryPath ++ ["js"; name] ∧ visible name).
Proof.
  intros H. rewrite matching_stages_eq.
  pose proof (selected_copyFiles_iff p H) as I0.
  pose proof (HTMLSource_iff p H) as I1. rewrite <- selected_single in I1.
  pose proof (glob_match_exact false "scss" "styles.scss" p H eq_refl eq_refl) as I2.
  rewrite <- selected_single in I2.
  pose proof (glob_match_children "images" p H eq_refl) as I3.
  rewrite <- selected_single in I3.
  pose proof (glob_match_children "js" p H eq_refl) as I4.
  rewrite <- selected_single in I4.
  pose proof (html_in_dir p H) as Hh.
  pose proof (css_in_dir p H) as Hc.
  pose proof (images_in_dir p H) as Hi.
  pose proof (js_in_dir p H) as Hj.
  pose proof (fun d Hd => copyFiles_not_in_dir d p H Hd) as Hcopy.
  unfold css_globs, imageSource, JSSource in *.
  destruct (selected copyFiles_globs p),
    (selected [Pos HTMLSource] p),
    (selected [Pos (sourceContentDirectoryPath ++ ["scss"; "styles.scss"])] p),
    (selected [Pos (sourceContentDirectoryPath ++ ["images"; "*"])] p),
    (selected [Pos (sourceContentDirectoryPath ++ ["js"; "*"])] p);
    repeat match goal with
      | Hx : true = true → in_dir _ _ |- _ => specialize (Hx eq_refl)
      | Hx : false = true → in_dir _ _ |- _ => clear Hx
      end;
    try solve
      [ exfalso;
        match goal with
        | Hx : in_dir ?d p |- _ =>
            apply (Hcopy d); [apply (bool_decide_unpack _); by vm_compute | done | done]
        end
      | exfalso;
        match goal with
        | H1 : in_dir ?a p, H2 : in_dir ?b p |- _ =>
            pose proof (in_dir_unique a b p H1 H2); discriminate
        end ];
    clear Hcopy; cbn [app];
    (split; [apply (bool_decide_unpack _); by vm_compute|]);
    rewrite <- I0, <- I1, <- I2, <- I3, <- I4;
    repeat split; intros; (done || discriminate).
Qed.

(** C2 (amended): every path is in the input set of at most one stage, and
    the input sets are these.  copyFiles reads the files outside [html],
    [scss], [images] and [js]; the markup stage reads the [.html] files
    below [html]; css reads [scss/styles.scss]; images and js read the
    direct children of [images] and of [js]; in each case only where no
    name on the way starts with a dot.  The files that no stage reads are
    the rest: a path that is not below the source content directory or has
    a name starting with a dot, a path at or below [html] that is no
    [.html] file, a path at or below [scss] other than [scss/styles.scss],
    and a path at or below [images] or [js] that is not a direct child. *)
Theorem C2_stage_inputs_characterised (p : fpath) :
  Forall (fun g => plain g = true) __dirname →
  matching_stages p ∈ [[]; ["copyFiles"]; ["html"]; ["css"]; ["images"]; ["js"]]
  ∧ (matching_stages p = ["copyFiles"]
     ↔ ∃ rel, p = sourceContentDirectoryPath ++ rel ∧ rel ≠ []
              ∧ Forall visible rel
              ∧ ∀ d, head rel = Some d → d ∉ owned_dirs)
  ∧ (matching_stages p = ["html"]
     ↔ ∃ rel stem,
         p = sourceContentDirectoryPath ++ ["html"] ++ rel ++ [stem +:+ ".html"]
         ∧ Forall visible rel ∧ visible (stem +:+ ".html"))
  ∧ (matching_stages p = ["css"]
     ↔ p = sourceContentDirectoryPath ++ ["scss"; "styles.scss"])
  ∧ (matching_stages p = ["images"]
     ↔ ∃ name, p = sourceContentDirectoryPath ++ ["images"; name] ∧ visible name)
  ∧ (matching_stages p = ["js"]
     ↔ ∃ name, p = sourceContentDirectoryPath ++ ["js"; name] ∧ visible name)
  ∧ (matching_stages p = []
     ↔ (¬ ∃ rel, p = sourceContentDirectoryPath ++ rel ∧ rel ≠ [] ∧ Forall visible rel)
       ∨ (∃ rest, p = sourceContentDirectoryPath ++ "html" :: rest
                  ∧ ∀ rel stem, rest ≠ rel ++ [stem +:+ ".html"])
       ∨ (∃ rest, p = sourceContentDirectoryPath ++ "scss" :: rest
                  ∧ rest ≠ ["styles.scss"])
       ∨ (∃ rest, p = sourceContentDirectoryPath ++ "images" :: rest
                  ∧ length rest ≠ 1)
       ∨ (∃ rest, p = sourceContentDirectoryPath ++ "js" :: rest
                  ∧ length rest ≠ 1)).
Proof.
  intros H.
  destruct (stage_inputs p H) as (Hall & I0 & I1 & I2 & I3 & I4).
  do 6 (split; [done|]). split.
  - intros Hnone.
    destruct (decide (sourceContentDirectoryPath `prefix_of` p)) as [[rel ->] | Hn];
      [| left; intros (rel & -> & _); apply Hn; by exists rel].
    destruct (decide (rel ≠ [] ∧ Forall visible rel)) as [[Hne Hvis] | Hn];
      [| left; intros (rel' & ->%app_inv_head & Hne & Hvis); by apply Hn].
    destruct rel as [|d rest]; [done|].
    apply Forall_cons in Hvis as [Hd Hvis].
    destruct (decide (d ∈ owned_dirs)) as [Hd' | Hd'].
    + right. set_unfold in Hd'. destruct Hd' as [-> | [-> | [-> | [-> | []]]]].
      * left. exists rest. split; [done|]. intros rel stem ->.
        apply Forall_app in Hvis as [Hrel Hv]. apply Forall_cons in Hv as [Hv _].
        assert (matching_stages
                  (sourceContentDirectoryPath ++ "html" :: rel ++ [stem +:+ ".html"])
                = ["html"]) as Heq by (apply I1; by exists rel, stem).
        by rewrite Hnone in Heq.
      * right. left. exists rest. split; [done|]. intros ->.
        assert (matching_stages (sourceContentDirectoryPath ++ ["scss"; "styles.scss"])
                = ["css"]) as Heq by (by apply I2).
        by rewrite Hnone in Heq.
      * do 2 right. left. exists rest. split; [done|]. intros Hlen.
        destruct rest as [|name [|]]; [done| |done].
        apply Forall_cons in Hvis as [Hv _].
        assert (matching_stages (sourceContentDirectoryPath ++ ["images"; name])
                = ["images"]) as Heq by (apply I3; by exists name).
        by rewrite Hnone in Heq.
      * do 3 right. exists rest. split; [done|]. intros Hlen.
        destruct rest as [|name [|]]; [done| |done].
        apply Forall_cons in Hvis as [Hv _].
        assert (matching_stages (sourceContentDirectoryPath ++ ["js"; name])
                = ["js"]) as Heq by (apply I4; by exists name).
        by rewrite Hnone in Heq.
    + assert (matching_stages (sourceContentDirectoryPath ++ d :: rest)
              = ["copyFiles"]) as Heq.
      { apply I0. exists (d :: rest). repeat split; [done| by constructor |].
        by intros d' [= <-]. }
      by rewrite Hnone in Heq.
  - intros Hrest.
    assert (matching_stages p ≠ ["copyFiles"] ∧ matching_stages p ≠ ["html"]
            ∧ matching_stages p ≠ ["css"] ∧ matching_stages p ≠ ["images"]
            ∧ matching_stages p ≠ ["js"]) as (N0 & N1 & N2 & N3 & N4).
    { rewrite I0, I1, I2, I3, I4.
      destruct Hrest as [Hn | [(rest & -> & Hr) | [(rest & -> & Hr)
                        | [(rest & -> & Hr) | (rest & -> & Hr)]]]].
      - repeat split.
        + intros (rel & -> & Hne & Hvis & _). apply Hn. by exists rel.
        + intros (rel & stem & -> & Hrel & Hv). apply Hn.
          exists (["html"] ++ rel ++ [stem +:+ ".html"]). repeat split; [done|].
          constructor; [done|]. apply Forall_app. split; [done|]. by repeat constructor.
        + intros ->. apply Hn. exists ["scss"; "styles.scss"].
          repeat split; [done|]. by repeat constructor.
        + intros (name & -> & Hv). apply Hn. exists ["images"; name].
          repeat split; [done|]. by repeat constructor.
        + intros (name & -> & Hv). apply Hn. exists ["js"; name].
          repeat split; [done|]. by repeat constructor.
      - repeat split.
        + intros (rel & <-%app_inv_head & _ & _ & Hd). apply (Hd "html"); [done|].
          apply (bool_decide_unpack _). by vm_compute.
        + intros (rel & stem & [= ->]%app_inv_head & _). by apply (Hr rel stem).
        + by intros [=]%app_inv_head.
        + by intros (name & [=]%app_inv_head & _).
        + by intros (name & [=]%app_inv_head & _).
      - repeat split.
        + intros (rel & <-%app_inv_head & _ & _ & Hd). apply (Hd "scss"); [done|].
          apply (bool_decide_unpack _). by vm_compute.
        + by intros (rel & stem & [=]%app_inv_head & _).
        + by intros [= ->]%app_inv_head.
        + by intros (name & [=]%app_inv_head & _).
        + by intros (name & [=]%app_inv_head & _).
      - repeat split.
        + intros (rel & <-%app_inv_head & _ & _ & Hd). apply (Hd "images"); [done|].
          apply (bool_decide_unpack _). by vm_compute.
        + by intros (rel & stem & [=]%app_inv_head & _).
        + by intros [=]%app_inv_head.
        + by intros (name & [= ->]%app_inv_head & _).
        + by intros (name & [=]%app_inv_head & _).
      - repeat split.
        + intros (rel & <-%app_inv_head & _ & _ & Hd). apply (Hd "js"); [done|].
          apply (bool_decide_unpack _). by vm_compute.
        + by intros (rel & stem & [=]%app_inv_head & _).
        + by intros [=]%app_inv_head.
        + by intros (name & [=]%app_inv_head & _).
        + by intros (name & [= ->]%app_inv_head & _). }
    set_unfold in Hall. by destruct Hall as [? | [? | [? | [? | [? | [? | []]]]]]].
Qed.




End Gulpfile.

(** C1 (the code departs from the claim): with [NODE_ENV] set to
    [development] the mode flag is still false, so the css stage minifies
    with cleanCSS and writes no sourcemaps, the js stage uglifies, and the
    build goes to the production directory: the development run gets the
    production transforms. *)
Theorem C1_development_environment_gets_production_transforms :
  let vars : gmap string string := {[ "NODE_ENV" := "development" ]} in
  devMode vars = false
  ∧ (∀ s, css_pipeline vars s
          = rename_dirname "css" (through postcss (through cleanCSS (sass_plugin s))))
  ∧ (∀ s, js_pipeline vars s = through uglify s)
  ∧ (∀ text,
       css ["project"] vars
         [(["project"; "src"; "EPUB"; "scss"; "styles.scss"], Source text)]
       = [(["project"; "build"; "textbook"; "EPUB"; "css"; "styles.css"],
           Apply postcss (Apply cleanCSS (Apply sass (Source text))))])
  ∧ (∀ text,
       js ["project"] vars
         [(["project"; "src"; "EPUB"; "js"; "main.js"], Source text)]
       = [(["project"; "build"; "textbook"; "EPUB"; "main.js"],
           Apply uglify (Source text))]).
Proof. repeat split. Qed.

(** ** The executor *)

Lemma task_nested_ind (P : task → Prop) :
  (∀ n, P (Leaf n)) →
  (∀ ts, Forall P ts → P (Series ts)) →
  (∀ ts, Forall P ts → P (Parallel ts)) →
  ∀ t, P t.
Proof.
  intros Hl Hs Hp. fix IH 1. intros [n | ts | ts].
  - apply Hl.
  - apply Hs. induction ts as [|t ts IHts]; constructor; [apply IH | apply IHts].
  - apply Hp. induction ts as [|t ts IHts]; constructor; [apply IH | apply IHts].
Qed.

Lemma run_nested_ind (P : run → Prop) :
  (∀ n ph, P (RLeaf n ph)) →
  (∀ cs, Forall P cs → P (RSeries cs)) →
  (∀ cs, Forall P cs → P (RParallel cs)) →
  ∀ r, P r.
Proof.
  intros Hl Hs Hp. fix IH 1. intros [n ph | cs | cs].
  - apply Hl.
  - apply Hs. induction cs as [|c cs IHcs]; constructor; [apply IH | apply IHcs].
  - apply Hp. induction cs as [|c cs IHcs]; constructor; [apply IH | apply IHcs].
Qed.

(** Before anything has run, a composition has not failed. *)
Lemma status_start (t : task) :
  status (start t) = None ∨ status (start t) = Some Success.
Proof.
  induction t as [n | ts IH | ts IH] using task_nested_ind.
  - by left.
  - cbn [start status]. induction IH as [|t ts [Ht|Ht] _ IHts]; cbn [map series_status].
    + by right.
    + rewrite Ht. by left.
    + rewrite Ht. apply IHts.
  - cbn [start status]. induction IH as [|t ts [Ht|Ht] _ IHts]; cbn [map parallel_status].
    + by right.
    + rewrite Ht. by left.
    + rewrite Ht. destruct IHts as [->| ->]; [by left | by right].
Qed.

Lemma status_start_not_failed (t : task) (e : string) :
  status (start t) ≠ Some (Failure e).
Proof. destruct (status_start t) as [->| ->]; discriminate. Qed.

Lemma parallel_status_completed (l : list (option outcome)) (o : outcome) :
  parallel_status l = Some o → Forall is_Some l.
Proof.
  revert o. induction l as [|[x|] l IH]; intros o; cbn [parallel_status].
  - constructor.
  - destruct (parallel_status l) as [o'|] eqn:E; [|discriminate].
    intros _. constructor; [by eexists | by eapply IH].
  - discriminate.
Qed.

(** A composition that has signalled completion does not move any more. *)
Lemma completed_stuck (r : run) (o : outcome) (sg : signal) (pos : list nat) :
  status r = Some o → fire sg pos r = None.
Proof.
  revert o pos.
  induction r as [n ph | cs IH | cs IH] using run_nested_ind; intros o pos Hst.
  - destruct ph; try discriminate. destruct pos; [|done]. by destruct sg.
  - destruct pos as [|i pos]; [done|]. cbn [fire status] in *.
    assert (update_child succeeded (fire sg pos) i cs = None) as ->; [|done].
    revert i Hst. induction IH as [|c cs Hc _ IHcs]; intros i Hst; [done|].
    cbn [map series_status] in Hst. cbn [update_child].
    destruct (status c) as [[|e]|] eqn:Ec; [| |discriminate].
    + destruct i as [|i]; [by rewrite (Hc Success)|].
      rewrite (IHcs i Hst). by destruct (succeeded c).
    + destruct i as [|i]; [by rewrite (Hc (Failure e))|].
      unfold succeeded. rewrite Ec. by rewrite bool_decide_false.
  - destruct pos as [|i pos]; [done|]. cbn [fire status] in *.
    assert (update_child (fun _ => true) (fire sg pos) i cs = None) as ->; [|done].
    apply parallel_status_completed in Hst. revert i Hst.
    induction IH as [|c cs Hc _ IHcs]; intros i Hst; [done|].
    cbn [map] in Hst. apply Forall_cons in Hst as [[oc Hoc] Hst].
    cbn [update_child]. destruct i as [|i]; [by rewrite (Hc oc)|].
    by rewrite (IHcs i Hst).
Qed.

Lemma update_child_length (guard : run → bool) (f : run → option run)
    (i : nat) (cs cs' : list run) :
  update_child guard f i cs = Some cs' → length cs' = length cs.
Proof.
  revert i cs'. induction cs as [|c cs IH]; intros i cs'; [done|].
  cbn [update_child]. destruct i as [|i].
  - destruct (f c); [|done]. by intros [= <-].
  - destruct (guard c); [|done].
    destruct (update_child guard f i cs) as [cs1|] eqn:E; [|done].
    intros [= <-]. simpl. f_equal. by eapply IH.
Qed.

Lemma series_inv_start (ts : list task) : series_inv ts (map start ts).
Proof. destruct ts; [done|]. by right. Qed.

Lemma series_inv_fire (f : run → option run) (ts : list task) (i : nat)
    (cs cs' : list run) :
  (∀ c, status c = Some Success → f c = None) →
  series_inv ts cs → update_child succeeded f i cs = Some cs' →
  series_inv ts cs'.
Proof.
  intros Hf. revert i cs cs'.
  induction ts as [|t ts IH]; intros i [|c cs] cs' Hinv Hup; try done.
  cbn [update_child] in Hup. destruct i as [|i].
  - destruct (f c) as [c'|] eqn:Ec; [|done]. injection Hup as <-.
    destruct Hinv as [[Hc _]| ->]; [by rewrite (Hf c Hc) in Ec | by right].
  - destruct (succeeded c) eqn:Hc; [|done].
    apply bool_decide_eq_true in Hc.
    destruct (update_child succeeded f i cs) as [cs1|] eqn:E; [|done].
    injection Hup as <-. left. split; [done|].
    apply (IH i cs cs1); [|done].
    destruct Hinv as [[_ Hinv]| ->]; [done | apply series_inv_start].
Qed.

(** Every state of a running [series] satisfies the invariant. *)
Lemma series_reachable (ts : list task) (evs : list (signal * list nat))
    (cs : list run) (s : run) :
  series_inv ts cs → run_events evs (RSeries cs) = Some s →
  ∃ cs', s = RSeries cs' ∧ series_inv ts cs'.
Proof.
  revert cs. induction evs as [|[sg pos] evs IH]; intros cs Hinv Hrun.
  - injection Hrun as <-. eauto.
  - cbn [run_events fire] in Hrun. destruct pos as [|i pos]; [done|].
    destruct (update_child succeeded (fire sg pos) i cs) as [cs1|] eqn:E; [|done].
    cbn [fmap option_fmap option_map] in Hrun. apply (IH cs1); [|done].
    eapply series_inv_fire; [|done..].
    intros c Hc. by apply (completed_stuck c Success).
Qed.

Lemma parallel_reachable (evs : list (signal * list nat)) (cs : list run) (s : run) :
  run_events evs (RParallel cs) = Some s →
  ∃ cs', s = RParallel cs' ∧ length cs' = length cs.
Proof.
  revert cs. induction evs as [|[sg pos] evs IH]; intros cs Hrun.
  - injection Hrun as <-. eauto.
  - cbn [run_events fire] in Hrun. destruct pos as [|i pos]; [done|].
    destruct (update_child (fun _ => true) (fire sg pos) i cs) as [cs1|] eqn:E; [|done].
    cbn [fmap option_fmap option_map] in Hrun.
    destruct (IH cs1 Hrun) as (cs' & -> & Hlen).
    exists cs'. split; [done|]. rewrite Hlen. by eapply update_child_length.
Qed.

(** A child of a running [parallel] is in a state it reaches on its own. *)
Lemma update_child_one_step (guard : run → bool) (sg : signal) (pos : list nat)
    (i : nat) (cs cs' : list run) :
  update_child guard (fire sg pos) i cs = Some cs' →
  Forall2 (fun c c' => c' = c ∨ fire sg pos c = Some c') cs cs'.
Proof.
  revert i cs'. induction cs as [|c cs IH]; intros i cs'; [done|].
  cbn [update_child]. destruct i as [|i].
  - destruct (fire sg pos c) as [c1|] eqn:E; [|done]. intros [= <-].
    constructor; [by right|]. apply Forall2_same_length_lookup. split; [done|].
    intros j x y Hx Hy. left. congruence.
  - destruct (guard c); [|done].
    destruct (update_child guard (fire sg pos) i cs) as [cs1|] eqn:E; [|done].
    intros [= <-]. constructor; [by left | by eapply IH].
Qed.

Lemma parallel_children_reachable (evs : list (signal * list nat)) (cs cs' : list run) :
  run_events evs (RParallel cs) = Some (RParallel cs') →
  Forall2 (fun c c' => ∃ evs_c, run_events evs_c c = Some c') cs cs'.
Proof.
  revert cs. induction evs as [|[sg pos] evs IH]; intros cs Hrun.
  - injection Hrun as <-. apply Forall2_same_length_lookup. split; [done|].
    intros j x y Hx Hy. exists []. simpl. congruence.
  - cbn [run_events fire] in Hrun. destruct pos as [|i pos]; [done|].
    destruct (update_child (fun _ => true) (fire sg pos) i cs) as [cs1|] eqn:E; [|done].
    cbn [fmap option_fmap option_map] in Hrun.
    specialize (IH cs1 Hrun). apply update_child_one_step in E.
    clear Hrun. revert cs' IH.
    induction E as [|c c1 cs cs1 Hc _ IHE]; intros cs' IH.
    + by inversion IH.
    + inversion IH as [|? c' ? cs0' [evs_c Hc'] Hrest]; subst.
      constructor; [|by apply IHE].
      destruct Hc as [->|Hc]; [by exists evs_c|].
      exists ((sg, pos) :: evs_c). cbn [run_events]. by rewrite Hc.
Qed.

(** C4: in [series(A, B, C)], once B has failed with an error, A has
    succeeded, C is as it was before the run (none of its leaves has been
    started), the composite has completed with the error of B, and no
    further signal is accepted: C is never started. *)
Theorem C4_series_fail_fast (A B C : task) (evs : list (signal * list nat))
    (a b c : run) (e : string) :
  run_events evs (start (Series [A; B; C])) = Some (RSeries [a; b; c]) →
  status b = Some (Failure e) →
  status a = Some Success
  ∧ c = start C
  ∧ status (RSeries [a; b; c]) = Some (Failure e)
  ∧ ∀ sg pos, fire sg pos (RSeries [a; b; c]) = None.
Proof.
  intros Hrun Hb.
  destruct (series_reachable [A; B; C] evs (map start [A; B; C]) _
              (series_inv_start _) Hrun) as (cs & [= <-] & Hinv).
  cbn [series_inv map] in Hinv.
  assert (status a = Some Success ∧ c = start C) as [Ha ->].
  { destruct Hinv as [[Ha Hinv]|[= -> _]].
    - split; [done|].
      destruct Hinv as [[Hb' _]|[= ->]]; [congruence | done].
    - by destruct (status_start_not_failed B e). }
  assert (status (RSeries [a; b; start C]) = Some (Failure e)) as Hs
    by (cbn [status map series_status]; by rewrite Ha, Hb).
  repeat split; [done..|].
  intros sg pos. by eapply completed_stuck.
Qed.

(** C5: in [parallel(A, B)] with A failed, the composite has not completed
    as long as B has not: it completes only in a state where B has
    completed, then with the error of A if B succeeded.  B is not cancelled:
    it is in a state that B reaches when run alone, and every signal that B
    accepts alone is accepted in the composite. *)
Theorem C5_parallel_waits_for_siblings (A B : task) (evs : list (signal * list nat))
    (a b : run) (e : string) :
  run_events evs (start (Parallel [A; B])) = Some (RParallel [a; b]) →
  status a = Some (Failure e) →
  (status b = None → status (RParallel [a; b]) = None)
  ∧ (∀ o, status (RParallel [a; b]) = Some o → is_Some (status b))
  ∧ (status b = Some Success → status (RParallel [a; b]) = Some (Failure e))
  ∧ (∃ evs_b, run_events evs_b (start B) = Some b)
  ∧ (∀ sg pos b', fire sg pos b = Some b' →
       fire sg (1 :: pos) (RParallel [a; b]) = Some (RParallel [a; b'])).
Proof.
  intros Hrun Ha. cbn [status map parallel_status]. rewrite Ha.
  split; [|split; [|split; [|split]]].
  - by intros ->.
  - intros o. destruct (status b); [eauto | discriminate].
  - by intros ->.
  - apply parallel_children_reachable in Hrun. cbn [start map] in Hrun.
    inversion Hrun as [|? ? ? ? _ Hrest]; subst.
    by inversion Hrest as [|? ? ? ? Hb _]; subst.
  - intros sg pos b' Hb. cbn [fire update_child]. by rewrite Hb.
Qed.

(** ** Instances *)

Example kebabCase_Textbook : kebabCase "Textbook" = "textbook".
Proof. reflexivity. Qed.

Example kebabCase_My_Book : kebabCase "My Book" = "my-book".
Proof. reflexivity. Qed.

Example kebabCase_camel : kebabCase "fooBar  XMLHttp2" = "foo-bar-xml-http-2".
Proof. reflexivity. Qed.

Example extname_examples :
  extname "ch1.html" = ".html" ∧ extname "a.b.c" = ".c"
  ∧ extname ".bashrc" = "" ∧ extname "README" = "".
Proof. by vm_compute. Qed.

Example glob_dot_rule :
  glob_match false ["a"; "**"; "*"] ["a"; "b"; "c.txt"] = true
  ∧ glob_match false ["a"; "**"; "*"] ["a"; ".git"; "config"] = false
  ∧ glob_match false ["a"; "**"; "*"] ["a"; ".keep"] = false
  ∧ glob_match true ["a"; "**"] ["a"; ".git"; "config"] = true.
Proof. by vm_compute. Qed.

Example buildContentDirectoryPath_example :
  buildContentDirectoryPath ["project"] {[ "NODE_ENV" := "development" ]}
  = ["project"; "build"; "textbook"; "EPUB"].
Proof. reflexivity. Qed.

(** The example of the specification: a production build of three files. *)
Example distributable_build :
  let src : tree :=
    [ (["project"; "src"; "EPUB"; "html"; "ch1.html"], Source "h");
      (["project"; "src"; "EPUB"; "scss"; "styles.scss"], Source "s");
      (["project"; "src"; "EPUB"; "images"; "cover.png"], Source "i") ] in
  let build :=
    copyFiles ["project"] ∅ src ++ xhtml ["project"] ∅ ["work"] src
    ++ images ["project"] ∅ src ++ css ["project"] ∅ src ++ js ["project"] ∅ src in
  build
  = [ (["project"; "build"; "textbook"; "EPUB"; "xhtml"; "ch1.xhtml"], Source "h");
      (["project"; "build"; "textbook"; "EPUB"; "images"; "cover.png"],
       Apply image (Source "i"));
      (["project"; "build"; "textbook"; "EPUB"; "css"; "styles.css"],
       Apply postcss (Apply cleanCSS (Apply sass (Source "s")))) ]
  ∧ zipEpub ["project"] ["work"] build
    = [ (["work"; "textbook.epub"],
         Archive
           [ (["textbook"], None);
             (["textbook"; "EPUB"], None);
             (["textbook"; "EPUB"; "xhtml"], None);
             (["textbook"; "EPUB"; "images"], None);
             (["textbook"; "EPUB"; "css"], None);
             (["textbook"; "EPUB"; "xhtml"; "ch1.xhtml"], Some (Source "h"));
             (["textbook"; "EPUB"; "images"; "cover.png"],
              Some (Apply image (Source "i")));
             (["textbook"; "EPUB"; "css"; "styles.css"],
              Some (Apply postcss (Apply cleanCSS (Apply sass (Source "s"))))) ]) ].
Proof. by vm_compute. Qed.

Example plain_examples :
  plain "my-project_1.0" = true ∧ plain "a*" = false ∧ plain "[work]" = false
  ∧ plain "v{1,2}" = false ∧ plain "what?" = false.
Proof. by vm_compute. Qed.

Example string_replace_examples :
  string_replace ".html" ".xhtml" "ch1.html" = "ch1.xhtml"
  ∧ string_replace ".html" ".xhtml" "a.html.html" = "a.xhtml.html"
  ∧ string_replace ".html" ".xhtml" "README" = "README"
  ∧ path_replace ".html" ".xhtml" ["part.html.d"; "ch2.html"] = ["part.xhtml.d"; "ch2.html"].
Proof. by vm_compute. Qed.

(** A series in which B fails: A has succeeded, C is idle, and the
    composite reports the error of B. *)
Lemma C4_series_fail_fast_witness :
  let evs := [(Begin, [0]); (End_ Success, [0]); (Begin, [1]);
              (End_ (Failure "boom"), [1])] in
  let s := RSeries [RLeaf "A" (Finished Success);
                    RLeaf "B" (Finished (Failure "boom")); RLeaf "C" Idle] in
  run_events evs (start (Series [Leaf "A"; Leaf "B"; Leaf "C"])) = Some s
  ∧ status s = Some (Failure "boom")
  ∧ fire Begin [2] s = None.
Proof.
  intros evs s.
  pose proof (C4_series_fail_fast (Leaf "A") (Leaf "B") (Leaf "C") evs
                (RLeaf "A" (Finished Success))
                (RLeaf "B" (Finished (Failure "boom"))) (RLeaf "C" Idle)
                "boom" eq_refl eq_refl) as (_ & _ & Hs & Hstuck).
  split; [reflexivity|]. split; [exact Hs | exact (Hstuck Begin [2])].
Defined.

(** A parallel in which A has failed while B is still running: the
    composite has not completed, and B can still complete. *)
Lemma C5_parallel_waits_for_siblings_witness :
  let evs := [(Begin, [0]); (Begin, [1]); (End_ (Failure "boom"), [0])] in
  let a := RLeaf "A" (Finished (Failure "boom")) in
  let b := RLeaf "B" Started in
  run_events evs (start (Parallel [Leaf "A"; Leaf "B"])) = Some (RParallel [a; b])
  ∧ status (RParallel [a; b]) = None
  ∧ fire (End_ Success) [1] (RParallel [a; b])
    = Some (RParallel [a; RLeaf "B" (Finished Success)]).
Proof.
  intros evs a b.
  pose proof (C5_parallel_waits_for_siblings (Leaf "A") (Leaf "B") evs a b
                "boom" eq_refl eq_refl) as (Hwait & _ & _ & _ & Hlive).
  split; [reflexivity|].
  split; [exact (Hwait eq_refl) | exact (Hlive (End_ Success) [] _ eq_refl)].
Defined.

(** A partial under [scss] is in no input set: css reads [styles.scss]
    only and copyFiles leaves the whole directory out. *)
Lemma C2_counterexample :
  matching_stages ["project"] ["project"; "src"; "EPUB"; "scss"; "_base.scss"] = []
  ∧ matching_stages ["project"] ["project"; "src"; "EPUB"; "html"; "notes.txt"] = []
  ∧ matching_stages ["project"]
      ["project"; "src"; "EPUB"; "images"; "icons"; "star.png"] = [].
Proof. by vm_compute. Qed.

Lemma plain_project : Forall (fun g => plain g = true) ["project"].
Proof. constructor; [reflexivity | constructor]. Qed.

Lemma no_html_project : Forall (fun s => contains ".html" s = false) ["project"].
Proof. constructor; [reflexivity | constructor]. Qed.

Lemma C2_stage_inputs_characterised_witness :
  matching_stages ["project"] ["project"; "src"; "EPUB"; "html"; "part1"; "ch1.html"]
  = ["html"]
  ∧ matching_stages ["project"] ["project"; "src"; "EPUB"; "mimetype"] = ["copyFiles"]
  ∧ matching_stages ["project"] ["project"; "src"; "EPUB"; "scss"; "_base.scss"]
    = [].
Proof.
  split; [|split].
  - apply (proj1 (proj2 (proj2 (C2_stage_inputs_characterised ["project"] _
                                  plain_project)))).
    exists ["part1"], "ch1". split; [reflexivity|].
    split; [by repeat constructor | reflexivity].
  - apply (proj1 (proj2 (C2_stage_inputs_characterised ["project"] _ plain_project))).
    exists ["mimetype"]. split; [reflexivity|]. split; [discriminate|].
    split; [by repeat constructor|].
    intros d [= <-]. apply (bool_decide_unpack _). by vm_compute.
  - apply (proj2 (proj2 (proj2 (proj2 (proj2 (proj2
             (C2_stage_inputs_characterised ["project"] _ plain_project))))))).
    right. right. left. exists ["_base.scss"]. split; [reflexivity | discriminate].
Defined.





(** ** Instances of the stage properties *)

Lemma copyFiles_writes_witness :
  (["project"; "build"; "textbook"; "EPUB"; "META-INF"; "container.xml"], Source "m")
  ∈ copyFiles ["project"] ∅
      [(["project"; "src"; "EPUB"; "META-INF"; "container.xml"], Source "m")].
Proof.
  apply (proj2 (copyFiles_writes ["project"] ∅ _ _ _ plain_project)).
  exists ["META-INF"; "container.xml"]. split; [reflexivity|].
  split; [apply list_elem_of_here|]. split; [discriminate|].
  split; [by repeat constructor|].
  intros d [= <-]. apply (bool_decide_unpack _). by vm_compute.
Defined.

Lemma images_writes_witness :
  (["project"; "build"; "textbook"; "EPUB"; "images"; "cover.png"],
   Apply image (Source "i"))
  ∈ images ["project"] ∅
      [(["project"; "src"; "EPUB"; "images"; "cover.png"], Source "i")].
Proof.
  apply (proj2 (images_writes ["project"] ∅ _ _ _ plain_project)).
  exists "cover.png", (Source "i"). split; [reflexivity|]. split; [reflexivity|].
  split; [apply list_elem_of_here | reflexivity].
Defined.

Lemma js_writes_witness :
  (["project"; "build"; "textbook"; "EPUB"; "main.js"], Apply uglify (Source "j"))
  ∈ js ["project"] ∅ [(["project"; "src"; "EPUB"; "js"; "main.js"], Source "j")].
Proof.
  apply (proj2 (js_writes ["project"] ∅ _ _ _ plain_project)).
  exists "main.js", (Source "j"). split; [reflexivity|]. split; [reflexivity|].
  split; [apply list_elem_of_here | reflexivity].
Defined.

Lemma css_writes_witness :
  (["project"; "build"; "textbook"; "EPUB"; "css"; "styles.css"],
   Apply postcss (Apply cleanCSS (Apply sass (Source "s"))))
  ∈ css ["project"] ∅
      [ (["project"; "src"; "EPUB"; "scss"; "_base.scss"], Source "b");
        (["project"; "src"; "EPUB"; "scss"; "styles.scss"], Source "s") ].
Proof.
  apply (proj2 (css_writes ["project"] ∅ _ _ _ plain_project)).
  exists (Source "s"). split; [reflexivity|]. split; [reflexivity|].
  apply list_elem_of_further, list_elem_of_here.
Defined.

Lemma html_writes_witness :
  (["project"; "build"; "textbook"; "EPUB"; "xhtml"; "part1"; "ch1.html"], Source "h")
  ∈ html ["project"] ∅
      [(["project"; "src"; "EPUB"; "html"; "part1"; "ch1.html"], Source "h")].
Proof.
  apply (proj2 (html_writes ["project"] ∅ _ _ _ plain_project)).
  exists ["part1"], "ch1". split; [reflexivity|].
  split; [apply list_elem_of_here|]. split; [by repeat constructor | reflexivity].
Defined.

Lemma xhtml_writes_witness :
  (["project"; "build"; "textbook"; "EPUB"; "xhtml"; "part.xhtml.d"; "ch2.html"],
   Source "h")
  ∈ xhtml ["project"] ∅ ["work"]
      [(["project"; "src"; "EPUB"; "html"; "part.html.d"; "ch2.html"], Source "h")]
  ∧ path_replace ".html" ".xhtml" ["part1"; "ch1" +:+ ".html"]
    = ["part1"; "ch1" +:+ ".xhtml"].
Proof.
  destruct (xhtml_writes ["project"] ∅ ["work"]
              [(["project"; "src"; "EPUB"; "html"; "part.html.d"; "ch2.html"],
                Source "h")]
              ["project"; "build"; "textbook"; "EPUB"; "xhtml"; "part.xhtml.d";
               "ch2.html"]
              (Source "h") plain_project no_html_project) as [Hiff Hext].
  split.
  - apply Hiff. exists ["part.html.d"], "ch2". split; [reflexivity|].
    split; [apply list_elem_of_here|]. split; [by repeat constructor | reflexivity].
  - apply (Hext ["part1"] "ch1"); [by repeat constructor | reflexivity].
Defined.

Lemma xhtml_of_html_witness :
  let t : tree :=
    [ (["project"; "src"; "EPUB"; "html"; "ch1.html"], Source "a");
      (["project"; "src"; "EPUB"; "html"; "notes.txt"], Source "n");
      (["project"; "src"; "EPUB"; "html"; "a.html.html"], Source "b") ] in
  xhtml ["project"] ∅ ["work"] t
  = map (fun qc => (path_replace ".html" ".xhtml" qc.1, qc.2)) (html ["project"] ∅ t).
Proof.
  intros t.
  exact (xhtml_of_html ["project"] ∅ ["work"] t plain_project no_html_project).
Defined.

Lemma copyFiles_js_same_destination_witness :
  let t : tree :=
    [ (["project"; "src"; "EPUB"; "main.js"], Source "top");
      (["project"; "src"; "EPUB"; "js"; "main.js"], Source "lib") ] in
  (["project"; "build"; "textbook"; "EPUB"; "main.js"], Source "top")
    ∈ copyFiles ["project"] ∅ t
  ∧ (["project"; "build"; "textbook"; "EPUB"; "main.js"], Apply uglify (Source "lib"))
    ∈ js ["project"] ∅ t.
Proof.
  intros t.
  apply (copyFiles_js_same_destination ["project"] ∅ t "main.js"
           (Source "top") (Source "lib") plain_project).
  - reflexivity.
  - apply (bool_decide_unpack _). by vm_compute.
  - apply list_elem_of_here.
  - apply list_elem_of_further, list_elem_of_here.
Defined.

Lemma watchCSS_covers_witness :
  glob_match false (watched (watchCSS ["project"]))
    ["project"; "src"; "EPUB"; "scss"; "styles.scss"] = true
  ∧ glob_match false (watched (watchCSS ["project"]))
      ["project"; "src"; "EPUB"; "scss"; "parts"; "_base.scss"] = true.
Proof.
  split.
  - apply (proj2 (watchCSS_covers ["project"] _ plain_project)). reflexivity.
  - apply (proj1 (watchCSS_covers ["project"] _ plain_project)).
    exists ["parts"], "_base". split; [reflexivity|].
    split; [by repeat constructor | reflexivity].
Defined.


Lemma stage_outputs_are_archived_witness :
  let src : tree := [(["project"; "src"; "EPUB"; "images"; "cover.png"], Source "i")] in
  let q := ["project"; "build"; "textbook"; "EPUB"; "images"; "cover.png"] in
  let fs : tree := [ (["project"; "build"; "old.txt"], Source "o");
                     (q, Apply image (Source "i")) ] in
  ∃ rel es, q = buildDirectoryPath ["project"] ++ rel
            ∧ zipEpub ["project"] ["work"] fs = [(["work"] ++ [zipEpub_name], Archive es)]
            ∧ (rel, Some (Apply image (Source "i"))) ∈ es.
Proof.
  intros src q fs.
  apply (stage_outputs_are_archived ["project"] ∅ ["work"] (images ["project"] ∅)
           src fs q (Apply image (Source "i")) plain_project no_html_project).
  - do 4 apply list_elem_of_further. apply list_elem_of_here.
  - apply list_elem_of_here.
  - apply list_elem_of_further, list_elem_of_here.
Defined.

Lemma cleanFiles_clears_build_witness :
  let t : tree :=
    [ (["project"; "src"; "EPUB"; "mimetype"], Source "m");
      (["project"; "build"; "textbook"; "EPUB"; "mimetype"], Source "old") ] in
  cleanFiles ["project"] t = [(["project"; "src"; "EPUB"; "mimetype"], Source "m")]
  ∧ zipEpub ["project"] ["project"] (cleanFiles ["project"] t) = [].
Proof.
  intros t. split; [reflexivity|].
  exact (proj2 (proj2 (cleanFiles_clears_build ["project"] ["project"] t eq_refl
                         plain_project))).
Defined.

Lemma callback_tasks_signal_success_once_witness :
  let w := {| log := [DoneOk]; running := []; serving := false |} in
  signals (reload w) = [DoneOk; DoneOk]
  ∧ signals (serve ["project"] ∅ w) = [DoneOk; DoneOk].
Proof.
  intros w. split.
  - exact (callback_tasks_signal_success_once ["project"] ∅ ["work"] "reload"
             reload w eq_refl).
  - exact (callback_tasks_signal_success_once ["project"] ∅ ["work"] "serve"
             (serve ["project"] ∅) w eq_refl).
Defined.

Lemma specialised_stages_write_apart_witness :
  let q := ["project"; "build"; "textbook"; "EPUB"; "images"; "cover.png"] in
  let t2 : tree := [(["project"; "src"; "EPUB"; "js"; "cover.png"], Source "j")] in
  (q, Apply uglify (Source "j")) ∉ js ["project"] ∅ t2.
Proof.
  intros q t2.
  apply (specialised_stages_write_apart ["project"] ∅ ["work"]
           (xhtml ["project"] ∅ ["work"]) "images" "js" (images ["project"] ∅) (js ["project"] ∅)
           [(["project"; "src"; "EPUB"; "images"; "cover.png"], Source "i")] t2
           q (Apply image (Source "i")) (Apply uglify (Source "j")) plain_project).
  - by right.
  - do 2 apply list_elem_of_further. apply list_elem_of_here.
  - do 3 apply list_elem_of_further. apply list_elem_of_here.
  - discriminate.
  - apply list_elem_of_here.
Defined.

Lemma started_watchers_cover_html_and_scss_only_witness :
  let p := ["project"; "src"; "EPUB"; "html"; "ch1.html"] in
  (∃ rest, p = sourceContentDirectoryPath ["project"] ++ "html" :: rest)
  ∨ (∃ rest, p = sourceContentDirectoryPath ["project"] ++ "scss" :: rest).
Proof.
  intros p.
  apply (started_watchers_cover_html_and_scss_only ["project"] ∅ ["work"] dev
           "watchHTML" (watchHTML ["project"]) p plain_project).
  - by left.
  - apply (bool_decide_unpack _). by vm_compute.
  - reflexivity.
  - reflexivity.
Defined.
